(** * openapi-apiclient: the transformation core of [openapigenerator2.ts]

    A shallow embedding of the pure part of the generator (common base path,
    identifier derivation, synthesis of the route functions) together with
    the properties its specification states about it.

    ECMAScript strings are sequences of UTF-16 code units; they are modelled
    as lists of code units, so that [substring], [slice], [indexOf] and the
    regular expressions of the source act on the same positions as in the
    program. *)

From Stdlib Require Import String Ascii.
From Stdlib Require Import List NArith ZArith Bool Lia Permutation.
From Equations Require Import Equations.
From Equations.Prop Require Import Logic.
Import ListNotations.
Local Open Scope Z_scope.

(* ===================================================================== *)
(** * ECMAScript primitives used by the program *)
(* ===================================================================== *)

Module JS.

(** A UTF-16 code unit (values below 65536 in an actual string). *)
Definition codeunit := N.
Definition jsstring := list codeunit.

Definition cu (c : ascii) : codeunit := N_of_ascii c.

(** An ASCII string literal of the source as a sequence of code units. *)
Definition js (s : string) : jsstring := map N_of_ascii (list_ascii_of_string s).

(** The empty string, written [''] in the source. *)
Definition emptyString : jsstring := [].

(** The line feed written [\n] in the source's literals. *)
Definition LF : jsstring := [10%N].

Fixpoint eqb (s t : jsstring) : bool :=
  match s, t with
  | [], [] => true
  | c :: s', d :: t' => N.eqb c d && eqb s' t'
  | _, _ => false
  end.

(** [s.startsWith(p)]: [p] occurs in [s] at position 0. *)
Fixpoint startsWith (s p : jsstring) : bool :=
  match p, s with
  | [], _ => true
  | _ :: _, [] => false
  | c :: p', d :: s' => N.eqb c d && startsWith s' p'
  end.

(** [s.indexOf(pat)]: the position of the first occurrence of [pat] in [s],
    or -1 when there is none. *)
Fixpoint indexOfFrom (s pat : jsstring) (i : Z) : Z :=
  if startsWith s pat then i
  else match s with
       | [] => -1
       | _ :: s' => indexOfFrom s' pat (i + 1)
       end.

Definition indexOf (s pat : jsstring) : Z := indexOfFrom s pat 0.

Definition clamp (len x : Z) : Z := Z.max 0 (Z.min x len).

(** [s.substring(a, b)]: both indices are clamped to [0, length] and swapped
    when [a > b]. *)
Definition substring (s : jsstring) (a b : Z) : jsstring :=
  let len := Z.of_nat (length s) in
  let a' := clamp len a in
  let b' := clamp len b in
  firstn (Z.to_nat (Z.max a' b' - Z.min a' b')) (skipn (Z.to_nat (Z.min a' b')) s).

(** A relative index of [slice]: negative indices count from the end. *)
Definition sliceIndex (len x : Z) : Z :=
  if x <? 0 then Z.max (len + x) 0 else Z.min x len.

(** [s.slice(a, b)]. *)
Definition slice (s : jsstring) (a b : Z) : jsstring :=
  let len := Z.of_nat (length s) in
  let from := sliceIndex len a in
  let to := sliceIndex len b in
  firstn (Z.to_nat (Z.max (to - from) 0)) (skipn (Z.to_nat from) s).

(** [s.slice(a)]: the end index defaults to the length. *)
Definition sliceFrom (s : jsstring) (a : Z) : jsstring :=
  slice s a (Z.of_nat (length s)).

(** [s.charAt(i)]: the one-unit string at [i], or the empty string. *)
Definition charAt (s : jsstring) (i : Z) : jsstring :=
  if (0 <=? i) && (i <? Z.of_nat (length s))
  then firstn 1 (skipn (Z.to_nat i) s)
  else [].

(** [s.endsWith(suf)]. *)
Definition endsWith (s suf : jsstring) : bool :=
  (length suf <=? length s)%nat && eqb (skipn (length s - length suf) s) suf.

(** [s.replace(searchValue, replaceValue)] with a string pattern: only the
    first occurrence is replaced. The program only passes the empty string
    as [replaceValue], which holds no [$] substitution pattern. *)
Definition replace (s searchValue replaceValue : jsstring) : jsstring :=
  let pos := indexOf s searchValue in
  if pos =? -1 then s
  else firstn (Z.to_nat pos) s ++ replaceValue
       ++ skipn (Z.to_nat pos + length searchValue) s.

(** [a.join(sep)] on an array of strings. *)
Fixpoint join (sep : jsstring) (a : list jsstring) : jsstring :=
  match a with
  | [] => []
  | [x] => x
  | x :: rest => x ++ sep ++ join sep rest
  end.

Definition inRange (lo hi c : codeunit) : bool := N.leb lo c && N.leb c hi.

(** Case conversion. On the ASCII range this is the Unicode mapping of
    [toUpperCase]/[toLowerCase]; code units outside ASCII are left as they
    are (the Unicode tables are not modelled). [toUpperCase] is only ever
    applied by the program to ASCII alphanumerics, see [capitalizePart]. *)
Definition toUpperCaseUnit (c : codeunit) : codeunit :=
  if inRange 97%N 122%N c then (c - 32)%N else c.
Definition toLowerCaseUnit (c : codeunit) : codeunit :=
  if inRange 65%N 90%N c then (c + 32)%N else c.
Definition toUpperCase (s : jsstring) : jsstring := map toUpperCaseUnit s.
Definition toLowerCase (s : jsstring) : jsstring := map toLowerCaseUnit s.

(** The character class [[a-zA-Z0-9]]. *)
Definition isAlnum (c : codeunit) : bool :=
  inRange 48%N 57%N c || inRange 65%N 90%N c || inRange 97%N 122%N c.

Fixpoint takeWhile (f : codeunit -> bool) (s : jsstring) : jsstring :=
  match s with
  | [] => []
  | c :: t => if f c then c :: takeWhile f t else []
  end.

Fixpoint dropWhile (f : codeunit -> bool) (s : jsstring) : jsstring :=
  match s with
  | [] => []
  | c :: t => if f c then dropWhile f t else s
  end.

(** A property key is an array index when it is the canonical decimal
    writing of an integer from 0 to 2^32 - 2: digits only, no leading zero
    unless the key is ["0"]. *)
Definition isDigit (c : codeunit) : bool := inRange 48%N 57%N c.

Definition digitsValue (key : jsstring) : N :=
  fold_left (fun acc c => (acc * 10 + (c - 48))%N) key 0%N.

Definition arrayIndex (key : jsstring) : option N :=
  match key with
  | [] => None
  | c :: rest =>
      if forallb isDigit key && (negb (N.eqb c 48%N) || eqb rest [])
      then if N.leb (digitsValue key) 4294967294%N
           then Some (digitsValue key) else None
      else None
  end.

Definition isArrayIndex (key : jsstring) : bool :=
  match arrayIndex key with Some _ => true | None => false end.

(** The own properties of an ordinary object are enumerated with the array
    index keys first, in ascending numeric order, and then the other string
    keys in the order in which the properties were created. An object is
    given by its properties in creation order, which for an object read
    from a JSON document is the order in which the document declares
    them. *)
Fixpoint insertIndexed {V : Type} (n : N) (e : jsstring * V)
    (l : list (N * (jsstring * V))) : list (N * (jsstring * V)) :=
  match l with
  | [] => [(n, e)]
  | (m, e') :: l' =>
      if N.leb n m then (n, e) :: l else (m, e') :: insertIndexed n e l'
  end.

Fixpoint indexedEntries {V : Type} (o : list (jsstring * V))
    : list (N * (jsstring * V)) :=
  match o with
  | [] => []
  | e :: o' =>
      match arrayIndex (fst e) with
      | Some n => insertIndexed n e (indexedEntries o')
      | None => indexedEntries o'
      end
  end.

(** [Object.entries(o)] *)
Definition Object_entries {V : Type} (o : list (jsstring * V))
    : list (jsstring * V) :=
  map snd (indexedEntries o)
  ++ filter (fun e => negb (isArrayIndex (fst e))) o.

(** [Object.keys(o)] *)
Definition Object_keys {V : Type} (o : list (jsstring * V)) : list jsstring :=
  map fst (Object_entries o).

End JS.

Import JS.
Arguments js s%_string.
Arguments cu c%_char.

(* ===================================================================== *)
(** * The common base path ([extractCommonBasePath], [findCommonPrefix]) *)
(* ===================================================================== *)

(** Outcome of the inner [while] loop of [findCommonPrefix]: either the loop
    ends and the [for] loop goes on with the candidate, or the function
    returns from inside the loop. *)
Inductive loop_result :=
| Continue (prefix : jsstring)
| Return (v : jsstring).

(** [while (strings[i].indexOf(prefix) !== 0) {
       prefix = prefix.substring(0, prefix.length - 1);
       if (prefix === '') return '';
     }] *)
Equations? whileShrink (s prefix : jsstring) : loop_result
  by wf (length prefix) lt :=
  whileShrink s prefix with Z.eqb (indexOf s prefix) 0 := {
    | true := Continue prefix
    | false with inspect (substring prefix 0 (Z.of_nat (length prefix) - 1)) := {
        | exist _ [] _ := Return []
        | exist _ (c :: p') Heq := whileShrink s (c :: p') } }.
Proof.
  apply (f_equal (@length codeunit)) in Heq.
  unfold substring, clamp in Heq.
  rewrite length_firstn, length_skipn in Heq.
  simpl length in *. lia.
Qed.

(** [for (let i = 1; i < strings.length; i++) { ... } return prefix;] over
    the elements after the first. *)
Fixpoint forLoop (rest : list jsstring) (prefix : jsstring) : jsstring :=
  match rest with
  | [] => prefix
  | s :: rest' =>
      match whileShrink s prefix with
      | Return v => v
      | Continue prefix' => forLoop rest' prefix'
      end
  end.

Definition findCommonPrefix (strings : list jsstring) : jsstring :=
  match strings with
  | [] => []
  | first :: rest => forLoop rest first
  end.

Definition extractCommonBasePath (paths : list jsstring) : jsstring :=
  match paths with
  | [] => []
  | _ :: _ =>
      let commonPrefix := findCommonPrefix paths in
      if endsWith commonPrefix (js "/") then slice commonPrefix 0 (-1)
      else commonPrefix
  end.

(* ===================================================================== *)
(** * Identifier derivation ([capitalizeCamelCase]) *)
(* ===================================================================== *)

(** [.replace(/^\//, '')]: a slash at position 0 is removed. *)
Definition replaceLeadingSlash (str : jsstring) : jsstring :=
  match str with
  | c :: t => if N.eqb c (cu "/") then t else str
  | [] => []
  end.

Definition notRBrace (c : codeunit) : bool := negb (N.eqb c (cu "}")).

(** One attempt of the pattern [{([^}]+)}] at the start of [s]: the capture
    group and what follows the match. The greedy [[^}]+] takes every unit up
    to the next closing brace; giving units back never helps, since the unit
    after a shorter group is not a closing brace. *)
Definition matchBraces (s : jsstring) : option (jsstring * jsstring) :=
  match s with
  | c :: t =>
      if N.eqb c (cu "{") then
        match takeWhile notRBrace t, dropWhile notRBrace t with
        | g :: group, _ :: rest => Some (g :: group, rest)
        | _, _ => None
        end
      else None
  | [] => None
  end.

(** [.replace(/{([^}]+)}/g, '$1')]: scanning from the left, each match is
    replaced by its capture group and the scan goes on after the match. *)
Equations? replaceBraces (s : jsstring) : jsstring by wf (length s) lt :=
  replaceBraces [] := [];
  replaceBraces (c :: t) with inspect (matchBraces (c :: t)) := {
    | exist _ (Some (group, rest)) Heq := group ++ replaceBraces rest
    | exist _ None _ := c :: replaceBraces t }.
Proof.
  destruct (N.eqb c 123); [|discriminate].
  destruct (takeWhile notRBrace t); [discriminate|].
  destruct (dropWhile notRBrace t) eqn:Hd; [discriminate|].
  inversion Heq; subst.
  assert (Hlen : forall u, (length (dropWhile notRBrace u) <= length u)%nat).
  { induction u as [|x u IH]; simpl; [lia|].
    destruct (notRBrace x); simpl; lia. }
  specialize (Hlen t). rewrite Hd in Hlen. simpl in *. lia.
Qed.

Definition notAlnum (c : codeunit) : bool := negb (isAlnum c).

(** [.split(/[^a-zA-Z0-9]+/)] from the current position: [cur] is the text
    since the end of the last separator. A separator is a maximal run of
    units outside the class; the text before it is pushed, also when it is
    empty, and the text after the last separator is pushed at the end. *)
Equations? splitFrom (cur rest : jsstring) : list jsstring
  by wf (length rest) lt :=
  splitFrom cur [] := [cur];
  splitFrom cur (c :: t) with isAlnum c := {
    | true := splitFrom (cur ++ [c]) t
    | false := cur :: splitFrom [] (dropWhile notAlnum t) }.
Proof.
  assert (Hlen : forall u, (length (dropWhile notAlnum u) <= length u)%nat).
  { induction u as [|x u IH]; simpl; [lia|].
    destruct (notAlnum x); simpl; lia. }
  specialize (Hlen t). lia.
Qed.

Definition splitNonAlnum (str : jsstring) : list jsstring := splitFrom [] str.

(** [part.charAt(0).toUpperCase() + part.slice(1)] *)
Definition capitalizePart (part : jsstring) : jsstring :=
  toUpperCase (charAt part 0) ++ sliceFrom part 1.

Definition capitalizeCamelCase (str : jsstring) : jsstring :=
  join [] (map capitalizePart
             (splitNonAlnum (replaceBraces (replaceLeadingSlash str)))).

(* ===================================================================== *)
(** * The document and the route generator ([generateRoutesContent]) *)
(* ===================================================================== *)

(** A value of type [unknown] read from a JSON document. Only its
    truthiness is observed: [JsonNumber] carries the parsed number when it
    is integral (a fractional number is truthy like any non-zero one), and
    the contents of arrays and objects are left out. *)
Inductive JsonValue :=
| JsonNull
| JsonBoolean (b : bool)
| JsonNumber (n : Z)
| JsonString (s : jsstring)
| JsonArray
| JsonObject.

(** [!!v] *)
Definition ToBoolean (v : JsonValue) : bool :=
  match v with
  | JsonNull => false
  | JsonBoolean b => b
  | JsonNumber n => negb (n =? 0)
  | JsonString s => negb (JS.eqb s [])
  | JsonArray | JsonObject => true
  end.

(** [interface Parameter { in: string; name: string }] ([Parameter] and
    [in] are reserved words here). *)
Record ParameterDecl := { in_ : jsstring; name : jsstring }.

(** [interface Operation { parameters?: Parameter[]; requestBody?: unknown }];
    [None] is an absent property. *)
Record Operation := {
  parameters : option (list ParameterDecl);
  requestBody : option JsonValue }.

(** An object used as a record is the list of its properties in creation
    order, that is in the order in which the document declares them;
    [Object_entries] and [Object_keys] give the order in which the program
    enumerates them. *)
Definition PathMethods := list (jsstring * Operation).

Record OpenAPISpec := { paths : list (jsstring * PathMethods) }.

(** [path.replace(baseUrl, '')] *)
Definition relativePath (path baseUrl : jsstring) : jsstring :=
  JS.replace path baseUrl [].

(** [`${method.toLowerCase()}${capitalizeCamelCase(relativePath)}`] *)
Definition functionName (method relPath : jsstring) : jsstring :=
  toLowerCase method ++ capitalizeCamelCase relPath.

(** [operation.parameters?.filter(p => p.in === 'path').map(p => p.name) || []] *)
Definition params (operation : Operation) : list jsstring :=
  match parameters operation with
  | Some ps => map name (filter (fun p => JS.eqb (in_ p) (js "path")) ps)
  | None => []
  end.

(** [!!operation.requestBody] *)
Definition hasRequestBody (operation : Operation) : bool :=
  match requestBody operation with
  | Some v => ToBoolean v
  | None => false
  end.

(** The text pushed as the first line of a function. *)
Definition functionDefinition (fname : jsstring) (ps : list jsstring)
    (hasBody : bool) : jsstring :=
  let fd := js "export async function " ++ fname ++ js "(" in
  let fd :=
    if (0 <? length ps)%nat
    then fd ++ (join (js ", ") ps ++ (if hasBody then js ", " else []))
    else fd in
  let fd := if hasBody then fd ++ js "requestBody: any" else fd in
  fd ++ js "): Promise<any> {".

(** [relativePath.replace(/{/g, '${')] *)
Definition replaceLBrace (relPath : jsstring) : jsstring :=
  flat_map (fun c => if N.eqb c (cu "{") then js "${" else [c]) relPath.

Definition apiPath (relPath : jsstring) (ps : list jsstring) : jsstring :=
  let apiPath := js "'" ++ relPath ++ js "'" in
  if (0 <? length ps)%nat then js "`" ++ replaceLBrace relPath ++ js "`"
  else apiPath.

(** The [return apiClient.<verb>(...)] line. *)
Definition returnLine (method path : jsstring) (hasBody : bool) : jsstring :=
  if hasBody
  then js "  return apiClient." ++ toLowerCase method ++ js "(" ++ path
       ++ js ", requestBody);"
  else js "  return apiClient." ++ toLowerCase method ++ js "(" ++ path
       ++ js ");".

(** The three lines pushed by one turn of the inner loop. *)
Definition operationLines (relPath method : jsstring) (operation : Operation)
    : list jsstring :=
  let fname := functionName method relPath in
  let ps := params operation in
  let hasBody := hasRequestBody operation in
  [ functionDefinition fname ps hasBody;
    returnLine method (apiPath relPath ps) hasBody;
    js "}" ++ LF ].

Definition importLine : jsstring :=
  js "import { apiClient } from './client';" ++ LF.

(** The array [functions] at the end of the two loops over
    [Object.entries(spec.paths)] and [Object.entries(methods)]; each [push]
    appends to the array threaded through the loops. *)
Definition generateRoutesLines (spec : OpenAPISpec) (baseUrl : jsstring)
    : list jsstring :=
  fold_left
    (fun functions (entry : jsstring * PathMethods) =>
       let '(path, methods) := entry in
       let relPath := relativePath path baseUrl in
       fold_left
         (fun functions (entry : jsstring * Operation) =>
            let '(method, operation) := entry in
            functions ++ operationLines relPath method operation)
         (Object_entries methods) functions)
    (Object_entries (paths spec)) [importLine].

Definition generateRoutesContent (spec : OpenAPISpec) (baseUrl : jsstring)
    : jsstring :=
  join LF (generateRoutesLines spec baseUrl).

(** The pure part of [main]: the base path of the document's paths, then the
    routes generated with it. *)
Definition main_baseUrl (spec : OpenAPISpec) : jsstring :=
  extractCommonBasePath (Object_keys (paths spec)).

Definition main_routesLines (spec : OpenAPISpec) : list jsstring :=
  generateRoutesLines spec (main_baseUrl spec).

Definition main_routesContent (spec : OpenAPISpec) : jsstring :=
  generateRoutesContent spec (main_baseUrl spec).

(** The lines of one operation of the document. *)
Definition linesOfOperation (baseUrl : jsstring)
    (e : jsstring * jsstring * Operation) : list jsstring :=
  operationLines (relativePath (fst (fst e)) baseUrl) (snd (fst e)) (snd e).

(** The lines of one path entry: its methods as the inner loop enumerates
    them. *)
Definition linesOfPath (baseUrl path : jsstring) (methods : PathMethods)
    : list jsstring :=
  flat_map (fun m : jsstring * Operation =>
              operationLines (relativePath path baseUrl) (fst m) (snd m))
           (Object_entries methods).

(** The operations of a document in the order in which the two loops
    enumerate them. *)
Definition enumeratedOperations (spec : OpenAPISpec)
    : list (jsstring * jsstring * Operation) :=
  flat_map (fun entry : jsstring * PathMethods =>
              map (fun m : jsstring * Operation => (fst entry, fst m, snd m))
                  (Object_entries (snd entry)))
           (Object_entries (paths spec)).

(* ===================================================================== *)
(** * Documents used as examples *)
(* ===================================================================== *)

Definition noParameters : Operation :=
  {| parameters := None; requestBody := None |}.

Definition pathParameter (nm : jsstring) : ParameterDecl :=
  {| in_ := js "path"; name := nm |}.

(** [{"/api/users": {"get": {}},
      "/api/users/{id}": {"get": {"parameters":[{"in":"path","name":"id"}]}}}] *)
Definition usersDocument : OpenAPISpec :=
  {| paths :=
       [ (js "/api/users", [(js "get", noParameters)]);
         (js "/api/users/{id}",
          [(js "get", {| parameters := Some [pathParameter (js "id")];
                         requestBody := None |})]) ] |}.

(** [{"/b": {"get": {}}, "7": {"get": {}}}] *)
Definition indexKeyDocument : OpenAPISpec :=
  {| paths := [ (js "/b", [(js "get", noParameters)]);
                (js "7", [(js "get", noParameters)]) ] |}.


(* ===================================================================== *)
(** * The specification's wording, for comparison *)
(* ===================================================================== *)

Module Spec.

(** The identifier deriver as the specification words it, step by step. *)

(** (1) strip a single leading separator if present. *)
Definition stripLeadingSeparator (s : jsstring) : jsstring :=
  match s with
  | c :: t => if N.eqb c (cu "/") then t else s
  | [] => []
  end.

(** (2) remove the parameter delimiters, treating [{name}] as [name]. A
    placeholder is an opening brace, a non-empty name free of closing
    braces, and a closing brace; placeholders are recognised from left to
    right. [pending] is [Some name] after the opening brace of a candidate
    placeholder whose name so far is [name]. *)
Fixpoint removeDelimitersFrom (pending : option jsstring) (s : jsstring)
    : jsstring :=
  match pending, s with
  | None, [] => []
  | None, c :: t =>
      if N.eqb c (cu "{") then removeDelimitersFrom (Some []) t
      else c :: removeDelimitersFrom None t
  | Some nm, [] => cu "{" :: nm
  | Some nm, c :: t =>
      if N.eqb c (cu "}") then
        match nm with
        | [] => cu "{" :: cu "}" :: removeDelimitersFrom None t
        | _ :: _ => nm ++ removeDelimitersFrom None t
        end
      else removeDelimitersFrom (Some (nm ++ [c])) t
  end.

Definition removeDelimiters (s : jsstring) : jsstring :=
  removeDelimitersFrom None s.

(** (3) split on any run of non-alphanumeric characters, discarding empty
    fragments: the fragments are the maximal alphanumeric runs. [cur] is the
    run being read. *)
Fixpoint fragmentsFrom (cur s : jsstring) : list jsstring :=
  match s with
  | [] => match cur with [] => [] | _ :: _ => [cur] end
  | c :: t =>
      if isAlnum c then fragmentsFrom (cur ++ [c]) t
      else match cur with
           | [] => fragmentsFrom [] t
           | _ :: _ => cur :: fragmentsFrom [] t
           end
  end.

Definition fragments (s : jsstring) : list jsstring := fragmentsFrom [] s.

Definition nonEmpty (s : jsstring) : bool :=
  match s with [] => false | _ :: _ => true end.

(** (4) uppercase the first character of a fragment, the rest unchanged. *)
Definition upperFirst (fragment : jsstring) : jsstring :=
  match fragment with
  | [] => []
  | c :: rest => toUpperCaseUnit c :: rest
  end.

(** (5) concatenate all fragments with no separator. *)
Definition identifierDeriver (path : jsstring) : jsstring :=
  concat (map upperFirst
            (fragments (removeDelimiters (stripLeadingSeparator path)))).

(** [q] is a literal, character-by-character prefix of [s]. *)
Definition literalPrefix (q s : jsstring) : Prop := exists rest, s = q ++ rest.


(** The names of the path-located parameters, in declaration order. *)
Fixpoint pathParameterNames (ps : list ParameterDecl) : list jsstring :=
  match ps with
  | [] => []
  | p :: rest =>
      if JS.eqb (in_ p) (js "path") then name p :: pathParameterNames rest
      else pathParameterNames rest
  end.

(** The operation has a request body marker: a [requestBody] property
    whose value is neither [null], [false], zero nor the empty string (an
    object, the only shape a request body has in a well-formed document,
    is always one). *)
Definition hasRequestBodyMarker (operation : Operation) : bool :=
  match requestBody operation with
  | None => false
  | Some JsonNull => false
  | Some (JsonBoolean b) => b
  | Some (JsonNumber n) => negb (Z.eqb n 0)
  | Some (JsonString s) => match s with [] => false | _ :: _ => true end
  | Some JsonArray => true
  | Some JsonObject => true
  end.

(** The declared parameters of an operation, none when the property is
    absent. *)
Definition declaredParameters (operation : Operation) : list ParameterDecl :=
  match parameters operation with
  | Some ps => ps
  | None => []
  end.

(** The formal parameters of an operation's function: the path parameters,
    then the payload parameter when a request body marker is present. *)
Definition formalParameters (operation : Operation) : list jsstring :=
  pathParameterNames (declaredParameters operation)
  ++ (if hasRequestBodyMarker operation then [js "requestBody: any"] else []).

(** No path key and no method key of the document is an array index. *)
Definition noIndexKeys (spec : OpenAPISpec) : bool :=
  forallb (fun entry : jsstring * PathMethods =>
             negb (isArrayIndex (fst entry))
             && forallb (fun m : jsstring * Operation =>
                           negb (isArrayIndex (fst m)))
                        (snd entry))
          (paths spec).

(** The lines of a path's operations, its methods taken in declaration
    order. *)
Definition linesOfDeclaredPath (baseUrl path : jsstring)
    (methods : PathMethods) : list jsstring :=
  flat_map (fun m : jsstring * Operation =>
              operationLines (relativePath path baseUrl) (fst m) (snd m))
           methods.

(** The operations of a document in declaration order: paths in order and,
    within a path, methods in order. *)
Definition operationsInOrder (spec : OpenAPISpec)
    : list (jsstring * jsstring * Operation) :=
  flat_map (fun entry : jsstring * PathMethods =>
              map (fun m : jsstring * Operation => (fst entry, fst m, snd m))
                  (snd entry))
           (paths spec).

End Spec.

(* ===================================================================== *)
(** * Auxiliary notions for the properties of the code *)
(* ===================================================================== *)

(** The post-processing of [extractCommonBasePath]:
    [commonPrefix.endsWith('/') ? commonPrefix.slice(0, -1) : commonPrefix]. *)
Definition stripTrailingSlash (commonPrefix : jsstring) : jsstring :=
  if endsWith commonPrefix (js "/") then slice commonPrefix 0 (-1)
  else commonPrefix.

(** The classes [[a-z]], [[A-Za-z]]. *)
Definition isLower (c : codeunit) : bool := inRange 97%N 122%N c.
Definition isLetter (c : codeunit) : bool :=
  inRange 65%N 90%N c || inRange 97%N 122%N c.

(** All strings of the list start with the unit [c]. *)
Definition allStartWith (c : codeunit) (strings : list jsstring) : Prop :=
  Forall (fun s => exists t, s = c :: t) strings.

(* ===================================================================== *)
(** * Strings: basic facts *)
(* ===================================================================== *)

Lemma eqb_eq (s t : jsstring) : JS.eqb s t = true <-> s = t.
Proof.
  revert t; induction s as [|c s IH]; intros [|d t]; simpl;
    try (split; (discriminate || reflexivity)).
  rewrite andb_true_iff, N.eqb_eq, IH. split.
  - intros [-> ->]; reflexivity.
  - intros H; inversion H; auto.
Qed.

Lemma startsWith_literalPrefix (s p : jsstring) :
  startsWith s p = true <-> Spec.literalPrefix p s.
Proof.
  unfold Spec.literalPrefix.
  revert s; induction p as [|c p IH]; intros s; simpl.
  - split; [intros _; exists s; reflexivity | destruct s; reflexivity].
  - destruct s as [|d s].
    + split; [discriminate | intros [r H]; discriminate].
    + simpl. rewrite andb_true_iff, N.eqb_eq, IH. split.
      * intros [-> [r ->]]. exists r; reflexivity.
      * intros [r H]. inversion H; subst. split; [reflexivity | exists r; reflexivity].
Qed.

Lemma indexOfFrom_bounds (s pat : jsstring) (i : Z) :
  indexOfFrom s pat i = -1 \/ i <= indexOfFrom s pat i.
Proof.
  revert i; induction s as [|c s IH]; intros i.
  - destruct pat; simpl; lia.
  - cbn [indexOfFrom]. destruct (startsWith (c :: s) pat); [lia|].
    destruct (IH (i + 1)); lia.
Qed.

Lemma indexOf_zero (s pat : jsstring) :
  indexOf s pat = 0 <-> startsWith s pat = true.
Proof.
  unfold indexOf. destruct s as [|c s].
  - destruct pat; simpl; split; (reflexivity || discriminate || lia).
  - cbn [indexOfFrom]. destruct (startsWith (c :: s) pat) eqn:E; [tauto|].
    split; [|discriminate]. destruct (indexOfFrom_bounds s pat (0 + 1)); lia.
Qed.

Lemma literalPrefix_refl (s : jsstring) : Spec.literalPrefix s s.
Proof. exists []. now rewrite app_nil_r. Qed.

Lemma literalPrefix_nil (s : jsstring) : Spec.literalPrefix [] s.
Proof. exists s. reflexivity. Qed.

Lemma literalPrefix_trans (a b c : jsstring) :
  Spec.literalPrefix a b -> Spec.literalPrefix b c -> Spec.literalPrefix a c.
Proof. intros [r ->] [r' ->]. exists (r ++ r'). now rewrite app_assoc. Qed.

Lemma literalPrefix_firstn (n : nat) (s : jsstring) :
  Spec.literalPrefix (firstn n s) s.
Proof. exists (skipn n s). symmetry. apply firstn_skipn. Qed.

Lemma substring_0 (s : jsstring) (b : Z) :
  substring s 0 b = firstn (Z.to_nat b) s.
Proof.
  unfold substring, clamp.
  replace (Z.min (Z.max 0 (Z.min 0 (Z.of_nat (length s))))
                 (Z.max 0 (Z.min b (Z.of_nat (length s))))) with 0 by lia.
  simpl skipn.
  destruct (Z_le_gt_dec b (Z.of_nat (length s))).
  - f_equal. lia.
  - rewrite !firstn_all2 by lia. reflexivity.
Qed.

Lemma slice_0_m1 (s : jsstring) :
  slice s 0 (-1) = firstn (length s - 1) s.
Proof.
  unfold slice, sliceIndex.
  change (0 <? 0) with false. change (-1 <? 0) with true. cbv iota.
  replace (Z.min 0 (Z.of_nat (length s))) with 0 by lia.
  simpl skipn. f_equal. lia.
Qed.

(* ===================================================================== *)
(** * The common base path: properties *)
(* ===================================================================== *)

(** The inner loop either leaves a candidate that starts the string and is
    a prefix of the candidate it was given, or returns the empty string. *)
Lemma whileShrink_sound (s p : jsstring) :
  match whileShrink s p with
  | Continue q => startsWith s q = true /\ Spec.literalPrefix q p
  | Return v => v = []
  end.
Proof.
  funelim (whileShrink s p).
  - split; [|apply literalPrefix_refl].
    apply indexOf_zero. apply Z.eqb_eq. assumption.
  - reflexivity.
  - destruct (whileShrink s (c :: p')) as [q|v]; [|assumption].
    match goal with IH : _ /\ _ |- _ => destruct IH as [Hs Hq] end.
    split; [assumption|].
    apply literalPrefix_trans with (b := c :: p'); [assumption|].
    match goal with E : substring _ _ _ = _ |- _ => rewrite <- E end.
    rewrite substring_0. apply literalPrefix_firstn.
Qed.

Lemma forLoop_literalPrefix (rest : list jsstring) :
  forall p, Spec.literalPrefix (forLoop rest p) p
            /\ Forall (Spec.literalPrefix (forLoop rest p)) rest.
Proof.
  induction rest as [|s rest IH]; intros p; simpl.
  - split; [apply literalPrefix_refl | constructor].
  - pose proof (whileShrink_sound s p) as Hw.
    destruct (whileShrink s p) as [q|v].
    + destruct Hw as [Hs Hq]. destruct (IH q) as [Hq' Hrest].
      apply startsWith_literalPrefix in Hs.
      split; [eapply literalPrefix_trans; eassumption|].
      constructor; [eapply literalPrefix_trans; eassumption | assumption].
    + subst v. split; [apply literalPrefix_nil|].
      apply Forall_forall. intros; apply literalPrefix_nil.
Qed.

Lemma findCommonPrefix_literalPrefix (strings : list jsstring) :
  Forall (Spec.literalPrefix (findCommonPrefix strings)) strings.
Proof.
  destruct strings as [|first rest]; simpl; [constructor|].
  destruct (forLoop_literalPrefix rest first). constructor; assumption.
Qed.

(** Stripping the trailing separator keeps a prefix a prefix. *)
Lemma extractCommonBasePath_findCommonPrefix (paths : list jsstring) :
  Spec.literalPrefix (extractCommonBasePath paths) (findCommonPrefix paths).
Proof.
  destruct paths as [|first rest]; [apply literalPrefix_nil|].
  unfold extractCommonBasePath.
  destruct (endsWith _ _); [|apply literalPrefix_refl].
  rewrite slice_0_m1. apply literalPrefix_firstn.
Qed.

Lemma endsWith_length (s suf : jsstring) :
  endsWith s suf = true -> (length suf <= length s)%nat.
Proof.
  unfold endsWith. rewrite andb_true_iff, Nat.leb_le. tauto.
Qed.

Lemma extractCommonBasePath_singleton (x : jsstring) :
  extractCommonBasePath [x]
  = if endsWith x (js "/") then slice x 0 (-1) else x.
Proof. reflexivity. Qed.

(** C9: the prefix extractor returns the empty string on the empty list,
    ["/a/b/c"] on the singleton of ["/a/b/c"], ["/api"] on
    ["/api/users"] and ["/api/orders"] (one trailing separator stripped),
    and the empty string on ["/a"] and ["/b"]. *)
Theorem extractCommonBasePath_examples :
  extractCommonBasePath [] = emptyString
  /\ extractCommonBasePath [js "/a/b/c"] = js "/a/b/c"
  /\ extractCommonBasePath [js "/api/users"; js "/api/orders"] = js "/api"
  /\ extractCommonBasePath [js "/a"; js "/b"] = emptyString.
Proof. repeat split; vm_compute; reflexivity. Qed.

Lemma extractCommonBasePath_starts_each (paths : list jsstring) (p : jsstring) :
  In p paths ->
  Spec.literalPrefix (extractCommonBasePath paths) p.
Proof.
  intros Hp.
  pose proof (findCommonPrefix_literalPrefix paths) as H.
  rewrite Forall_forall in H.
  eapply literalPrefix_trans;
    [apply extractCommonBasePath_findCommonPrefix | apply H, Hp].
Qed.

(** C4: for every list of endpoint paths, the string returned by the prefix
    extractor is a literal, character-by-character prefix of every path of
    the list (the empty string being a prefix of every path). *)
Theorem extractCommonBasePath_literal_prefix (paths : list jsstring) :
  Forall (fun p => Spec.literalPrefix (extractCommonBasePath paths) p
                   /\ startsWith p (extractCommonBasePath paths) = true)
         paths.
Proof.
  apply Forall_forall. intros p Hp.
  pose proof (extractCommonBasePath_starts_each paths p Hp) as H.
  split; [assumption | apply startsWith_literalPrefix; assumption].
Qed.

(** C2 does not hold as stated: the common prefix of ["/api//users"] and
    ["/api//orders"] is ["/api//"], the extractor returns ["/api/"], and
    on the singleton of that result it returns ["/api"]. *)
Lemma extractCommonBasePath_not_idempotent :
  [js "/api//users"; js "/api//orders"] <> []
  /\ extractCommonBasePath
       [extractCommonBasePath [js "/api//users"; js "/api//orders"]]
     <> extractCommonBasePath [js "/api//users"; js "/api//orders"].
Proof. split; [discriminate | vm_compute; discriminate]. Qed.

(* ===================================================================== *)
(** * Identifier derivation: the program against the specification *)
(* ===================================================================== *)

Lemma replaceBraces_cons (c : codeunit) (t : jsstring) :
  replaceBraces (c :: t)
  = match matchBraces (c :: t) with
    | Some (group, rest) => group ++ replaceBraces rest
    | None => c :: replaceBraces t
    end.
Proof.
  simp replaceBraces.
  destruct (inspect (matchBraces (c :: t))) as [[[g r]|] E];
    simp replaceBraces; rewrite E; reflexivity.
Qed.

Lemma splitFrom_cons (cur : jsstring) (c : codeunit) (t : jsstring) :
  splitFrom cur (c :: t)
  = if isAlnum c then splitFrom (cur ++ [c]) t
    else cur :: splitFrom [] (dropWhile notAlnum t).
Proof. simp splitFrom. destruct (isAlnum c); reflexivity. Qed.

Lemma takeWhile_app_stop (f : codeunit -> bool) (g : jsstring) c rest :
  forallb f g = true -> f c = false ->
  takeWhile f (g ++ c :: rest) = g /\ dropWhile f (g ++ c :: rest) = c :: rest.
Proof.
  intros Hg Hc. induction g as [|x g IH]; simpl.
  - rewrite Hc. auto.
  - simpl in Hg. apply andb_true_iff in Hg. destruct Hg as [Hx Hg].
    rewrite Hx. destruct (IH Hg) as [-> ->]. auto.
Qed.

Lemma dropWhile_all (f : codeunit -> bool) (g : jsstring) :
  forallb f g = true -> dropWhile f g = [].
Proof.
  induction g as [|x g IH]; simpl; [reflexivity|].
  intros H. apply andb_true_iff in H. destruct H as [-> H]. auto.
Qed.

(** A match of the pattern: the placeholder is replaced by its name. *)
Lemma replaceBraces_placeholder (g rest : jsstring) :
  g <> [] -> forallb notRBrace g = true ->
  replaceBraces (cu "{" :: g ++ cu "}" :: rest) = g ++ replaceBraces rest.
Proof.
  intros Hne Hg. rewrite replaceBraces_cons. unfold matchBraces.
  change (N.eqb (cu "{") (cu "{")) with true. cbv iota.
  destruct (takeWhile_app_stop notRBrace g (cu "}") rest Hg eq_refl)
    as [-> ->].
  destruct g; [congruence | reflexivity].
Qed.

(** Without a closing brace there is no match. *)
Lemma replaceBraces_no_closing (s : jsstring) :
  forallb notRBrace s = true -> replaceBraces s = s.
Proof.
  induction s as [|c t IH]; intros H; [reflexivity|].
  simpl in H. apply andb_true_iff in H. destruct H as [Hc Ht].
  rewrite replaceBraces_cons.
  assert (Hm : matchBraces (c :: t) = None).
  { unfold matchBraces. destruct (N.eqb c (cu "{")); [|reflexivity].
    rewrite (dropWhile_all _ _ Ht). destruct (takeWhile notRBrace t); reflexivity. }
  rewrite Hm, IH by assumption. reflexivity.
Qed.

Lemma replaceBraces_other (c : codeunit) (t : jsstring) :
  N.eqb c (cu "{") = false -> replaceBraces (c :: t) = c :: replaceBraces t.
Proof.
  intros H. rewrite replaceBraces_cons. unfold matchBraces. rewrite H.
  reflexivity.
Qed.

Lemma replaceBraces_empty_name (rest : jsstring) :
  replaceBraces (cu "{" :: cu "}" :: rest)
  = cu "{" :: cu "}" :: replaceBraces rest.
Proof.
  rewrite replaceBraces_cons.
  change (matchBraces (cu "{" :: cu "}" :: rest))
    with (@None (jsstring * jsstring)).
  cbv iota. f_equal. apply replaceBraces_other. reflexivity.
Qed.

Lemma removeDelimitersFrom_replaceBraces (t : jsstring) :
  Spec.removeDelimitersFrom None t = replaceBraces t
  /\ forall nm, forallb notRBrace nm = true ->
       Spec.removeDelimitersFrom (Some nm) t
       = replaceBraces (cu "{" :: nm ++ t).
Proof.
  induction t as [|c t [IHnone IHsome]].
  - split; [reflexivity|]. intros nm Hnm. rewrite app_nil_r.
    cbn [Spec.removeDelimitersFrom]. symmetry.
    apply replaceBraces_no_closing. simpl. exact Hnm.
  - split.
    + cbn [Spec.removeDelimitersFrom].
      destruct (N.eqb c (cu "{")) eqn:Hc.
      * apply N.eqb_eq in Hc. subst c. apply (IHsome [] eq_refl).
      * rewrite IHnone. symmetry. apply replaceBraces_other, Hc.
    + intros nm Hnm. cbn [Spec.removeDelimitersFrom].
      destruct (N.eqb c (cu "}")) eqn:Hc.
      * apply N.eqb_eq in Hc. subst c. destruct nm as [|x nm].
        -- rewrite IHnone. symmetry. apply replaceBraces_empty_name.
        -- rewrite IHnone. symmetry.
           apply replaceBraces_placeholder; [discriminate | exact Hnm].
      * rewrite IHsome.
        -- now rewrite <- app_assoc.
        -- rewrite forallb_app, Hnm. simpl. unfold notRBrace. now rewrite Hc.
Qed.

Lemma replaceBraces_removeDelimiters (s : jsstring) :
  replaceBraces s = Spec.removeDelimiters s.
Proof. symmetry. apply removeDelimitersFrom_replaceBraces. Qed.

Lemma capitalizePart_upperFirst (part : jsstring) :
  capitalizePart part = Spec.upperFirst part.
Proof.
  destruct part as [|c rest]; [reflexivity|].
  unfold capitalizePart, charAt, sliceFrom, slice, sliceIndex.
  change (0 <=? 0) with true. change (1 <? 0) with false.
  replace (0 <? Z.of_nat (length (c :: rest))) with true
    by (symmetry; apply Z.ltb_lt; simpl length; lia).
  replace (Z.of_nat (length (c :: rest)) <? 0) with false
    by (symmetry; apply Z.ltb_ge; lia).
  cbv iota. simpl andb. cbv iota.
  replace (Z.min 1 (Z.of_nat (length (c :: rest)))) with 1
    by (simpl length; lia).
  replace (Z.min (Z.of_nat (length (c :: rest))) (Z.of_nat (length (c :: rest))))
    with (Z.of_nat (length (c :: rest))) by lia.
  change (Z.to_nat 1) with 1%nat. change (Z.to_nat 0) with 0%nat.
  cbn [skipn firstn toUpperCase map app Spec.upperFirst]. f_equal.
  apply firstn_all2. simpl length. lia.
Qed.

Lemma join_nil_concat (a : list jsstring) : join [] a = concat a.
Proof.
  induction a as [|x a IH]; [reflexivity|].
  destruct a as [|y a]; [simpl; now rewrite app_nil_r|].
  change (join [] (x :: y :: a)) with (x ++ [] ++ join [] (y :: a)).
  rewrite IH. reflexivity.
Qed.

Lemma concat_map_upperFirst_nonEmpty (a : list jsstring) :
  concat (map Spec.upperFirst a)
  = concat (map Spec.upperFirst (filter Spec.nonEmpty a)).
Proof.
  induction a as [|x a IH]; [reflexivity|].
  destruct x; simpl; now rewrite IH.
Qed.

Lemma fragmentsFrom_skip_separators (t : jsstring) :
  Spec.fragmentsFrom [] (dropWhile notAlnum t) = Spec.fragmentsFrom [] t.
Proof.
  induction t as [|c t IH]; [reflexivity|].
  cbn [dropWhile]. unfold notAlnum at 1.
  destruct (isAlnum c) eqn:Hc; cbn [negb]; [reflexivity|].
  rewrite IH. cbn [Spec.fragmentsFrom]. now rewrite Hc.
Qed.

(** Discarding the empty elements of the array returned by [split] leaves
    the maximal alphanumeric runs. *)
Lemma splitFrom_fragmentsFrom (cur rest : jsstring) :
  filter Spec.nonEmpty (splitFrom cur rest) = Spec.fragmentsFrom cur rest.
Proof.
  funelim (splitFrom cur rest).
  - destruct cur; reflexivity.
  - cbn [Spec.fragmentsFrom].
    match goal with E : isAlnum _ = true |- _ => rewrite E end. assumption.
  - cbn [Spec.fragmentsFrom filter].
    match goal with E : isAlnum _ = false |- _ => rewrite E end.
    match goal with IH : filter _ _ = _ |- _ => rewrite IH end.
    rewrite fragmentsFrom_skip_separators. destruct cur; reflexivity.
Qed.

(** The parts returned by [split] hold alphanumerics only, so that
    [toUpperCase] is applied to an ASCII letter or digit, or to the empty
    string. *)
Lemma splitFrom_alnum (cur rest : jsstring) :
  forallb isAlnum cur = true ->
  Forall (fun part => forallb isAlnum part = true) (splitFrom cur rest).
Proof.
  funelim (splitFrom cur rest); intros Hcur.
  - constructor; [assumption | constructor].
  - match goal with IH : _ -> Forall _ _ |- _ => apply IH end.
    rewrite forallb_app, Hcur. simpl.
    match goal with E : isAlnum _ = true |- _ => now rewrite E end.
  - constructor; [assumption|].
    match goal with IH : _ -> Forall _ _ |- _ => apply IH end. reflexivity.
Qed.

(** C8: for every input string the identifier deriver returns what the
    five steps of the specification give: strip one leading separator,
    turn each [{name}] into [name], split on runs of non-alphanumeric
    characters discarding empty fragments, uppercase the first character
    of each fragment, and concatenate; in particular ["/users/{id}"]
    yields ["UsersId"], ["/"] yields the empty string and ["/a-b_c"] yields
    ["ABC"]. *)
Theorem capitalizeCamelCase_refines_spec :
  (forall str, capitalizeCamelCase str = Spec.identifierDeriver str)
  /\ capitalizeCamelCase (js "/users/{id}") = js "UsersId"
  /\ capitalizeCamelCase (js "/") = emptyString
  /\ capitalizeCamelCase (js "/a-b_c") = js "ABC".
Proof.
  split; [|repeat split; vm_compute; reflexivity].
  intros str. unfold capitalizeCamelCase, Spec.identifierDeriver.
  rewrite join_nil_concat.
  rewrite (map_ext _ _ capitalizePart_upperFirst).
  rewrite concat_map_upperFirst_nonEmpty.
  unfold splitNonAlnum. rewrite splitFrom_fragmentsFrom.
  rewrite replaceBraces_removeDelimiters. reflexivity.
Qed.

(* ===================================================================== *)
(** * The route generator: the array built by the loops *)
(* ===================================================================== *)

Lemma inner_loop_pushes (relPath : jsstring) (methods : PathMethods) :
  forall functions,
    fold_left
      (fun functions (entry : jsstring * Operation) =>
         let '(method, operation) := entry in
         functions ++ operationLines relPath method operation)
      methods functions
    = functions
      ++ flat_map (fun m => operationLines relPath (fst m) (snd m)) methods.
Proof.
  induction methods as [|[method operation] methods IH]; intros functions.
  - simpl. now rewrite app_nil_r.
  - cbn [fold_left flat_map fst snd]. rewrite IH, <- app_assoc. reflexivity.
Qed.

Lemma insertIndexed_perm {V : Type} (n : N) (e : jsstring * V)
    (l : list (N * (jsstring * V))) :
  Permutation (map snd (insertIndexed n e l)) (e :: map snd l).
Proof.
  induction l as [|[m e'] l IH]; cbn [insertIndexed map snd].
  - apply Permutation_refl.
  - destruct (N.leb n m); cbn [map snd]; [apply Permutation_refl|].
    eapply Permutation_trans; [apply perm_skip, IH | apply perm_swap].
Qed.

(** The enumeration reorders the properties, it neither drops nor repeats
    any. *)
Lemma Object_entries_perm {V : Type} (o : list (jsstring * V)) :
  Permutation (Object_entries o) o.
Proof.
  unfold Object_entries. induction o as [|e o IH]; [apply Permutation_refl|].
  cbn [indexedEntries filter]. unfold isArrayIndex at 1.
  destruct (arrayIndex (fst e)) as [n|]; cbn [negb].
  - eapply Permutation_trans;
      [apply Permutation_app_tail, insertIndexed_perm|].
    cbn [app]. apply perm_skip, IH.
  - apply Permutation_sym.
    eapply Permutation_trans; [apply perm_skip, Permutation_sym, IH|].
    apply Permutation_middle.
Qed.

Lemma Object_entries_in {V : Type} (o : list (jsstring * V)) x :
  In x o -> In x (Object_entries o).
Proof.
  apply Permutation_in, Permutation_sym, Object_entries_perm.
Qed.

(** Without array index keys the enumeration is the creation order. *)
Lemma Object_entries_no_index {V : Type} (o : list (jsstring * V)) :
  forallb (fun e => negb (isArrayIndex (fst e))) o = true ->
  Object_entries o = o.
Proof.
  unfold Object_entries. intros H.
  assert (Hi : indexedEntries o = []).
  { induction o as [|e o IH]; [reflexivity|].
    cbn [forallb] in H. apply andb_true_iff in H. destruct H as [He Ho].
    cbn [indexedEntries]. unfold isArrayIndex in He.
    destruct (arrayIndex (fst e)); [discriminate | apply IH, Ho]. }
  rewrite Hi. cbn [map app].
  induction o as [|e o IH]; [reflexivity|].
  cbn [forallb] in H. apply andb_true_iff in H. destruct H as [He Ho].
  cbn [filter]. rewrite He. f_equal. apply IH; [exact Ho|].
  cbn [indexedEntries] in Hi. unfold isArrayIndex in He.
  destruct (arrayIndex (fst e)); [discriminate | exact Hi].
Qed.

Lemma Object_entries_singleton {V : Type} (e : jsstring * V) :
  Object_entries [e] = [e].
Proof.
  unfold Object_entries. cbn [indexedEntries filter]. unfold isArrayIndex.
  destruct (arrayIndex (fst e)); reflexivity.
Qed.

Lemma outer_loop_pushes (baseUrl : jsstring)
    (entries : list (jsstring * PathMethods)) :
  forall functions,
    fold_left
      (fun functions (entry : jsstring * PathMethods) =>
         let '(path, methods) := entry in
         let relPath := relativePath path baseUrl in
         fold_left
           (fun functions (entry : jsstring * Operation) =>
              let '(method, operation) := entry in
              functions ++ operationLines relPath method operation)
           (Object_entries methods) functions)
      entries functions
    = functions
      ++ flat_map (fun e => linesOfPath baseUrl (fst e) (snd e)) entries.
Proof.
  induction entries as [|[path methods] entries IH]; intros functions.
  - simpl. now rewrite app_nil_r.
  - cbn [fold_left flat_map fst snd]. cbv zeta.
    rewrite inner_loop_pushes, IH, <- app_assoc. reflexivity.
Qed.

Lemma generateRoutesLines_by_path (spec : OpenAPISpec) (baseUrl : jsstring) :
  generateRoutesLines spec baseUrl
  = importLine
    :: flat_map (fun e => linesOfPath baseUrl (fst e) (snd e))
         (Object_entries (paths spec)).
Proof. unfold generateRoutesLines. now rewrite outer_loop_pushes. Qed.

Lemma flat_map_operations (baseUrl path : jsstring) (methods : PathMethods) :
  flat_map (fun m : jsstring * Operation =>
              operationLines (relativePath path baseUrl) (fst m) (snd m))
           methods
  = flat_map (linesOfOperation baseUrl)
      (map (fun m : jsstring * Operation => (path, fst m, snd m)) methods).
Proof.
  induction methods as [|m methods IH]; simpl; [reflexivity|]. now rewrite IH.
Qed.

Lemma linesOfPath_operations (baseUrl path : jsstring) (methods : PathMethods) :
  linesOfPath baseUrl path methods
  = flat_map (linesOfOperation baseUrl)
      (map (fun m : jsstring * Operation => (path, fst m, snd m))
           (Object_entries methods)).
Proof. unfold linesOfPath. apply flat_map_operations. Qed.

Lemma generateRoutesLines_by_operation (spec : OpenAPISpec)
    (baseUrl : jsstring) :
  generateRoutesLines spec baseUrl
  = importLine
    :: flat_map (linesOfOperation baseUrl) (enumeratedOperations spec).
Proof.
  rewrite generateRoutesLines_by_path. f_equal.
  unfold enumeratedOperations.
  induction (Object_entries (paths spec)) as [|e entries IH]; simpl;
    [reflexivity|].
  rewrite flat_map_app, IH, linesOfPath_operations. reflexivity.
Qed.

(** Without array index keys the loops enumerate the operations in
    declaration order. *)
Lemma enumeratedOperations_no_index (spec : OpenAPISpec) :
  Spec.noIndexKeys spec = true ->
  enumeratedOperations spec = Spec.operationsInOrder spec.
Proof.
  unfold Spec.noIndexKeys, enumeratedOperations, Spec.operationsInOrder.
  intros H.
  assert (Hp : forallb (fun e : jsstring * PathMethods =>
                          negb (isArrayIndex (fst e))) (paths spec) = true).
  { rewrite forallb_forall in *. intros x Hx. specialize (H x Hx).
    apply andb_true_iff in H. tauto. }
  rewrite (Object_entries_no_index _ Hp). clear Hp.
  induction (paths spec) as [|e entries IH]; [reflexivity|].
  cbn [forallb] in H. apply andb_true_iff in H. destruct H as [He H].
  apply andb_true_iff in He. destruct He as [_ He].
  cbn [flat_map]. rewrite (Object_entries_no_index _ He), (IH H).
  reflexivity.
Qed.

Lemma join_app (sep : jsstring) (a b : list jsstring) :
  a <> [] -> b <> [] ->
  join sep (a ++ b) = join sep a ++ sep ++ join sep b.
Proof.
  intros Ha Hb. induction a as [|x a IH]; [congruence|].
  destruct a as [|y a].
  - destruct b as [|z b]; [congruence | reflexivity].
  - change (join sep ((x :: y :: a) ++ b))
      with (x ++ sep ++ join sep ((y :: a) ++ b)).
    rewrite IH by discriminate.
    change (join sep (x :: y :: a)) with (x ++ sep ++ join sep (y :: a)).
    now rewrite <- !app_assoc.
Qed.

Lemma operationsInOrder_two (P2 P1 : jsstring) (ms2 ms1 : PathMethods)
    (baseUrl : jsstring) (spec : OpenAPISpec) :
  paths spec = [(P2, ms2); (P1, ms1)] ->
  flat_map (linesOfOperation baseUrl) (Spec.operationsInOrder spec)
  = Spec.linesOfDeclaredPath baseUrl P2 ms2
    ++ Spec.linesOfDeclaredPath baseUrl P1 ms1.
Proof.
  intros H. unfold Spec.operationsInOrder, Spec.linesOfDeclaredPath.
  rewrite H. cbn [flat_map fst snd]. rewrite app_nil_r, flat_map_app.
  now rewrite !flat_map_operations.
Qed.

(** C7 does not hold as stated: a key that is an array index is enumerated
    before the other keys. For the paths declared in the order ["/b"],
    ["7"], the function of ["7"] comes first in the output. *)
Lemma indexKeyDocument_not_in_declaration_order :
  paths indexKeyDocument
  = [ (js "/b", [(js "get", noParameters)]);
      (js "7", [(js "get", noParameters)]) ]
  /\ main_routesLines indexKeyDocument
     = [ importLine;
         js "export async function get7(): Promise<any> {";
         js "  return apiClient.get('7');";
         js "}" ++ LF;
         js "export async function getB(): Promise<any> {";
         js "  return apiClient.get('/b');";
         js "}" ++ LF ]
  /\ main_routesLines indexKeyDocument
     <> importLine
        :: flat_map (linesOfOperation (main_baseUrl indexKeyDocument))
             (Spec.operationsInOrder indexKeyDocument).
Proof.
  split; [reflexivity|]. split; [vm_compute; reflexivity|].
  vm_compute. discriminate.
Qed.

(** C7, amended: for every document in which no path key and no method key
    is an array index (as when every path starts with a slash and every
    method is an HTTP method name), the generated functions appear in the
    document's declaration order: after the import line, the array of
    lines is the concatenation, over the operations in document order
    (paths in order and, within a path, methods in order), of each
    operation's three lines, and the output text is these lines joined;
    for paths declared in the order P2, P1 the lines of P2 come before
    those of P1, and in the output text the functions of P2 come before
    the functions of P1. *)
Theorem generateRoutesContent_declaration_order
    (spec : OpenAPISpec) (baseUrl : jsstring) :
  Spec.noIndexKeys spec = true ->
  generateRoutesLines spec baseUrl
  = importLine
    :: flat_map (linesOfOperation baseUrl) (Spec.operationsInOrder spec)
  /\ generateRoutesContent spec baseUrl
     = join LF
         (importLine
          :: flat_map (linesOfOperation baseUrl)
               (Spec.operationsInOrder spec))
  /\ (forall P2 ms2 P1 ms1,
        paths spec = [(P2, ms2); (P1, ms1)] ->
        generateRoutesLines spec baseUrl
        = importLine
          :: Spec.linesOfDeclaredPath baseUrl P2 ms2
             ++ Spec.linesOfDeclaredPath baseUrl P1 ms1)
  /\ (forall P2 ms2 P1 m1 ms1,
        paths spec = [(P2, ms2); (P1, m1 :: ms1)] ->
        generateRoutesContent spec baseUrl
        = join LF (importLine :: Spec.linesOfDeclaredPath baseUrl P2 ms2)
          ++ LF
          ++ join LF (Spec.linesOfDeclaredPath baseUrl P1 (m1 :: ms1))).
Proof.
  intros Hno.
  assert (H : generateRoutesLines spec baseUrl
              = importLine
                :: flat_map (linesOfOperation baseUrl)
                     (Spec.operationsInOrder spec))
    by (rewrite generateRoutesLines_by_operation;
        now rewrite (enumeratedOperations_no_index spec Hno)).
  split; [exact H|]. split; [|split].
  - unfold generateRoutesContent. now rewrite H.
  - intros P2 ms2 P1 ms1 Hp. rewrite H.
    now rewrite (operationsInOrder_two P2 P1 ms2 ms1 baseUrl spec Hp).
  - intros P2 ms2 P1 m1 ms1 Hp. unfold generateRoutesContent. rewrite H.
    rewrite (operationsInOrder_two P2 P1 ms2 (m1 :: ms1) baseUrl spec Hp).
    change (importLine :: ?a ++ ?b) with ((importLine :: a) ++ b).
    apply join_app; discriminate.
Qed.

(** C7, amended, at the end-to-end document, whose keys are not array
    indices. *)
Lemma generateRoutesContent_declaration_order_witness :
  Spec.noIndexKeys usersDocument = true
  /\ generateRoutesLines usersDocument (js "/api/users")
     = importLine
       :: Spec.linesOfDeclaredPath (js "/api/users") (js "/api/users")
            [(js "get", noParameters)]
          ++ Spec.linesOfDeclaredPath (js "/api/users")
               (js "/api/users/{id}")
               [(js "get", {| parameters := Some [pathParameter (js "id")];
                              requestBody := None |})].
Proof.
  assert (Hno : Spec.noIndexKeys usersDocument = true) by reflexivity.
  split; [exact Hno|].
  destruct (generateRoutesContent_declaration_order usersDocument
              (js "/api/users") Hno) as [_ [_ [Htwo _]]].
  apply Htwo. reflexivity.
Defined.

(* ===================================================================== *)
(** * The relative path *)
(* ===================================================================== *)

Lemma literalPrefix_skipn (q s : jsstring) :
  Spec.literalPrefix q s -> s = q ++ skipn (length q) s.
Proof.
  intros [r ->]. rewrite skipn_app, skipn_all, Nat.sub_diag. reflexivity.
Qed.

(** When the pattern starts the string, [replace] with the empty string
    drops it from the front. *)
Lemma relativePath_startsWith (path baseUrl : jsstring) :
  startsWith path baseUrl = true ->
  relativePath path baseUrl = skipn (length baseUrl) path.
Proof.
  intros H. unfold relativePath, JS.replace.
  apply indexOf_zero in H. rewrite H. reflexivity.
Qed.

Lemma main_baseUrl_startsWith (spec : OpenAPISpec) path methods :
  In (path, methods) (paths spec) ->
  startsWith path (main_baseUrl spec) = true.
Proof.
  intros Hin. apply startsWith_literalPrefix.
  apply extractCommonBasePath_starts_each.
  unfold Object_keys. apply Object_entries_in in Hin.
  apply (in_map fst) in Hin. exact Hin.
Qed.

Lemma operation_lines_in_output (spec : OpenAPISpec) (baseUrl : jsstring)
    path methods method operation :
  In (path, methods) (paths spec) ->
  In (method, operation) methods ->
  exists before after,
    generateRoutesLines spec baseUrl
    = before
      ++ operationLines (relativePath path baseUrl) method operation
      ++ after.
Proof.
  intros Hp Hm. rewrite generateRoutesLines_by_path.
  apply Object_entries_in, in_split in Hp. destruct Hp as [p1 [p2 Hp]].
  apply Object_entries_in, in_split in Hm. destruct Hm as [m1 [m2 Hm]].
  rewrite Hp, flat_map_app. cbn [flat_map fst snd].
  unfold linesOfPath at 2. rewrite Hm, flat_map_app. cbn [flat_map fst snd].
  set (ls1 := flat_map _ p1). set (ls2 := flat_map _ p2).
  set (lm1 := flat_map _ m1). set (lm2 := flat_map _ m2).
  set (ops := operationLines _ _ _).
  exists (importLine :: ls1 ++ lm1), (lm2 ++ ls2).
  change (importLine :: ?l = (importLine :: ?a) ++ ?b)
    with (importLine :: l = importLine :: (a ++ b)).
  f_equal. rewrite <- !app_assoc. reflexivity.
Qed.

(** C5: for every document and every endpoint path in it, the original path
    is the computed common prefix followed by the relative path, that is the
    relative path is the original path with the common prefix removed from
    its front; and the lines generated for each method of that path are
    built from this relative path. *)
Theorem relativePath_is_path_without_prefix
    (spec : OpenAPISpec) (path : jsstring) (methods : PathMethods) :
  In (path, methods) (paths spec) ->
  path = main_baseUrl spec ++ relativePath path (main_baseUrl spec)
  /\ relativePath path (main_baseUrl spec)
     = skipn (length (main_baseUrl spec)) path
  /\ forall method operation,
       In (method, operation) methods ->
       exists before after,
         main_routesLines spec
         = before
           ++ operationLines (skipn (length (main_baseUrl spec)) path)
                method operation
           ++ after.
Proof.
  intros Hin. pose proof (main_baseUrl_startsWith spec path methods Hin) as Hs.
  pose proof (relativePath_startsWith _ _ Hs) as Hr.
  split; [|split].
  - rewrite Hr. apply literalPrefix_skipn.
    apply startsWith_literalPrefix. exact Hs.
  - exact Hr.
  - intros method operation Hm. rewrite <- Hr.
    apply (operation_lines_in_output spec (main_baseUrl spec)
             path methods method operation Hin Hm).
Qed.

(** C5 at a document with the paths ["/api/users/{id}"] and
    ["/api/orders"], whose common prefix is ["/api"]. *)
Lemma relativePath_is_path_without_prefix_witness :
  In (js "/api/users/{id}", [(js "get", noParameters)])
     (paths {| paths :=
                 [ (js "/api/users/{id}", [(js "get", noParameters)]);
                   (js "/api/orders", [(js "post", noParameters)]) ] |})
  /\ js "/api/users/{id}" = js "/api" ++ js "/users/{id}"
  /\ relativePath (js "/api/users/{id}") (js "/api") = js "/users/{id}".
Proof.
  set (spec := {| paths :=
                 [ (js "/api/users/{id}", [(js "get", noParameters)]);
                   (js "/api/orders", [(js "post", noParameters)]) ] |}).
  assert (Hin : In (js "/api/users/{id}", [(js "get", noParameters)])
                   (paths spec)) by (simpl; left; reflexivity).
  split; [exact Hin|].
  destruct (relativePath_is_path_without_prefix spec _ _ Hin)
    as [Hpath [Hrel _]].
  split.
  - etransitivity; [exact Hpath|]. vm_compute. reflexivity.
  - vm_compute. reflexivity.
Defined.

(* ===================================================================== *)
(** * The synthesized function: parameters and call-site path *)
(* ===================================================================== *)

(** An operation with a request body and the method [POST]: the function
    takes the path parameter and then the payload, and delegates to the
    [post] accessor; a query parameter is left out. *)
Example operationLines_post_with_body :
  operationLines (js "/users/{id}/notes") (js "POST")
    {| parameters := Some [ {| in_ := js "query"; name := js "verbose" |};
                            pathParameter (js "id") ];
       requestBody := Some JsonObject |}
  = [ js "export async function postUsersIdNotes(id, requestBody: any): Promise<any> {";
      js "  return apiClient.post(`/users/${id}/notes`, requestBody);";
      js "}" ++ LF ].
Proof. vm_compute. reflexivity. Qed.

(** Distinct paths may yield the same identifier: ["/foo_bar"],
    ["/foo-bar"] and ["/fooBar"] all give [FooBar]. *)
Example capitalizeCamelCase_collision :
  capitalizeCamelCase (js "/foo_bar") = js "FooBar"
  /\ capitalizeCamelCase (js "/foo-bar") = js "FooBar"
  /\ capitalizeCamelCase (js "/fooBar") = js "FooBar".
Proof. repeat split; vm_compute; reflexivity. Qed.

Lemma params_pathParameterNames (operation : Operation) :
  params operation
  = match parameters operation with
    | Some ps => Spec.pathParameterNames ps
    | None => []
    end.
Proof.
  unfold params. destruct (parameters operation) as [ps|]; [|reflexivity].
  induction ps as [|p ps IH]; [reflexivity|].
  cbn [filter map Spec.pathParameterNames].
  destruct (JS.eqb (in_ p) (js "path")); cbn [map]; now rewrite IH.
Qed.

Lemma join_snoc (sep : jsstring) (a : list jsstring) (x : jsstring) :
  a <> [] -> join sep (a ++ [x]) = join sep a ++ sep ++ x.
Proof.
  induction a as [|y a IH]; [congruence|]. intros _.
  destruct a as [|z a].
  - reflexivity.
  - change (join sep ((y :: z :: a) ++ [x]))
      with (y ++ sep ++ join sep ((z :: a) ++ [x])).
    rewrite IH by discriminate.
    change (join sep (y :: z :: a)) with (y ++ sep ++ join sep (z :: a)).
    now rewrite <- !app_assoc.
Qed.

Lemma hasRequestBody_marker (operation : Operation) :
  hasRequestBody operation = Spec.hasRequestBodyMarker operation.
Proof.
  unfold hasRequestBody, Spec.hasRequestBodyMarker.
  destruct (requestBody operation) as [[| b | n | [|c s] | |]|]; reflexivity.
Qed.

Lemma params_declared (operation : Operation) :
  params operation
  = Spec.pathParameterNames (Spec.declaredParameters operation).
Proof.
  rewrite params_pathParameterNames. unfold Spec.declaredParameters.
  destruct (parameters operation); reflexivity.
Qed.

(** C6: the formal parameters of the generated function are, in order, one
    parameter per declared parameter whose location is ["path"], named by
    its declared name and in declaration order (the others are omitted),
    followed by exactly one payload parameter if and only if the operation
    has a request body marker (a [requestBody] property with a truthy
    value, as every JSON object is); they are written between the
    parentheses of the function's first line, separated by [", "]. *)
Theorem functionDefinition_formal_parameters
    (fname : jsstring) (operation : Operation) :
  functionDefinition fname (params operation) (hasRequestBody operation)
  = js "export async function " ++ fname ++ js "("
    ++ join (js ", ") (Spec.formalParameters operation)
    ++ js "): Promise<any> {"
  /\ (requestBody operation = None ->
      Spec.formalParameters operation
      = Spec.pathParameterNames (Spec.declaredParameters operation))
  /\ (forall v, requestBody operation = Some v -> ToBoolean v = false ->
      Spec.formalParameters operation
      = Spec.pathParameterNames (Spec.declaredParameters operation))
  /\ (forall v, requestBody operation = Some v -> ToBoolean v = true ->
      Spec.formalParameters operation
      = Spec.pathParameterNames (Spec.declaredParameters operation)
        ++ [js "requestBody: any"])
  /\ (requestBody operation = Some JsonObject ->
      Spec.formalParameters operation
      = Spec.pathParameterNames (Spec.declaredParameters operation)
        ++ [js "requestBody: any"]).
Proof.
  split.
  - rewrite params_declared, hasRequestBody_marker.
    unfold Spec.formalParameters.
    set (names := Spec.pathParameterNames _).
    unfold functionDefinition.
    set (head := js "export async function "). set (open := js "(").
    set (close := js "): Promise<any> {"). set (sep := js ", ").
    set (body := js "requestBody: any").
    destruct names as [|n names];
      destruct (Spec.hasRequestBodyMarker operation);
      cbn [length Nat.ltb Nat.leb app].
    + change (join sep [body]) with body. now rewrite <- !app_assoc.
    + change (join sep []) with (@nil codeunit). now rewrite <- !app_assoc.
    + change (n :: names ++ [body]) with ((n :: names) ++ [body]).
      rewrite join_snoc by discriminate. now rewrite <- !app_assoc.
    + rewrite !app_nil_r. now rewrite <- !app_assoc.
  - unfold Spec.formalParameters.
    rewrite <- hasRequestBody_marker. unfold hasRequestBody.
    repeat split.
    + intros ->. apply app_nil_r.
    + intros v -> ->. apply app_nil_r.
    + intros v -> ->. reflexivity.
    + intros ->. reflexivity.
Qed.

(** C6 at an operation with a query parameter, the path parameter [id] and
    an object as request body. *)
Lemma functionDefinition_formal_parameters_witness :
  requestBody {| parameters := Some [ {| in_ := js "query";
                                         name := js "verbose" |};
                                      pathParameter (js "id") ];
                 requestBody := Some JsonObject |}
  = Some JsonObject
  /\ functionDefinition (js "postUsersId")
       (params {| parameters := Some [ {| in_ := js "query";
                                          name := js "verbose" |};
                                       pathParameter (js "id") ];
                  requestBody := Some JsonObject |})
       (hasRequestBody
          {| parameters := Some [ {| in_ := js "query";
                                     name := js "verbose" |};
                                  pathParameter (js "id") ];
             requestBody := Some JsonObject |})
     = js "export async function postUsersId(id, requestBody: any): Promise<any> {".
Proof.
  split; [reflexivity|].
  destruct (functionDefinition_formal_parameters (js "postUsersId")
              {| parameters := Some [ {| in_ := js "query";
                                         name := js "verbose" |};
                                      pathParameter (js "id") ];
                 requestBody := Some JsonObject |})
    as [Hline [_ [_ [_ Hobject]]]].
  rewrite Hline, (Hobject eq_refl). vm_compute. reflexivity.
Defined.







(* ===================================================================== *)
(** * A path equal to the common prefix *)
(* ===================================================================== *)

Lemma startsWith_refl (s : jsstring) : startsWith s s = true.
Proof. apply startsWith_literalPrefix, literalPrefix_refl. Qed.

Lemma relativePath_self (path : jsstring) : relativePath path path = [].
Proof.
  rewrite relativePath_startsWith by apply startsWith_refl.
  apply skipn_all.
Qed.

Lemma capitalizeCamelCase_empty : capitalizeCamelCase [] = [].
Proof. reflexivity. Qed.

(** C10: for every document in which an endpoint path equals the computed
    common prefix, that endpoint's relative path is the empty string, the
    name of the function generated for each of its methods is the
    lowercased method alone, its lines in the output are those built from
    the empty relative path, and when it has no path parameter its
    call-site path is the empty string literal. *)
Theorem path_equal_to_common_prefix
    (spec : OpenAPISpec) (path : jsstring) (methods : PathMethods)
    (method : jsstring) (operation : Operation) :
  In (path, methods) (paths spec) ->
  In (method, operation) methods ->
  path = main_baseUrl spec ->
  relativePath path (main_baseUrl spec) = emptyString
  /\ functionName method (relativePath path (main_baseUrl spec))
     = toLowerCase method
  /\ (exists before after,
        main_routesLines spec
        = before
          ++ [ functionDefinition (toLowerCase method) (params operation)
                 (hasRequestBody operation);
               returnLine method (apiPath emptyString (params operation))
                 (hasRequestBody operation);
               js "}" ++ LF ]
          ++ after)
  /\ (params operation = [] ->
      apiPath (relativePath path (main_baseUrl spec)) (params operation)
      = js "''").
Proof.
  intros Hp Hm Heq.
  assert (Hrel : relativePath path (main_baseUrl spec) = [])
    by (rewrite <- Heq; apply relativePath_self).
  rewrite Hrel. split; [reflexivity|]. split; [|split].
  - unfold functionName. rewrite capitalizeCamelCase_empty. apply app_nil_r.
  - destruct (operation_lines_in_output spec (main_baseUrl spec)
                path methods method operation Hp Hm) as [before [after H]].
    exists before, after. unfold main_routesLines. rewrite H, Hrel.
    unfold operationLines, functionName.
    rewrite capitalizeCamelCase_empty, app_nil_r. reflexivity.
  - intros ->. reflexivity.
Qed.

(** C10 at the first path of the end-to-end document, which equals the
    common prefix. *)
Lemma path_equal_to_common_prefix_witness :
  In (js "/api/users", [(js "get", noParameters)]) (paths usersDocument)
  /\ In (js "get", noParameters) [(js "get", noParameters)]
  /\ js "/api/users" = main_baseUrl usersDocument
  /\ functionName (js "get")
       (relativePath (js "/api/users") (main_baseUrl usersDocument))
     = js "get"
  /\ apiPath (relativePath (js "/api/users") (main_baseUrl usersDocument))
       (params noParameters)
     = js "''".
Proof.
  assert (Hp : In (js "/api/users", [(js "get", noParameters)])
                  (paths usersDocument)) by (simpl; left; reflexivity).
  assert (Hm : In (js "get", noParameters) [(js "get", noParameters)])
    by (simpl; left; reflexivity).
  assert (Hb : js "/api/users" = main_baseUrl usersDocument)
    by (vm_compute; reflexivity).
  destruct (path_equal_to_common_prefix usersDocument (js "/api/users")
              [(js "get", noParameters)] (js "get") noParameters Hp Hm Hb)
    as [_ [Hname [_ Hpath]]].
  split; [exact Hp|]. split; [exact Hm|]. split; [exact Hb|].
  split; [exact Hname | apply Hpath; reflexivity].
Defined.

(* ===================================================================== *)
(** * The end-to-end scenario *)
(* ===================================================================== *)

(** C1 does not hold as stated: the first path is a prefix of the second
    one, so the common prefix of the two paths is ["/api/users"] and not
    ["/api"], and the functions are not named [getUsers] and
    [getUsersId]. *)
Lemma usersDocument_not_as_claimed :
  main_baseUrl usersDocument <> js "/api"
  /\ main_routesLines usersDocument
     <> [ importLine;
          js "export async function getUsers(): Promise<any> {";
          js "  return apiClient.get('/users');";
          js "}" ++ LF;
          js "export async function getUsersId(id): Promise<any> {";
          js "  return apiClient.get(`/users/${id}`);";
          js "}" ++ LF ]
  /\ map (fun e => functionName (snd (fst e))
                     (relativePath (fst (fst e)) (main_baseUrl usersDocument)))
         (Spec.operationsInOrder usersDocument)
     <> [js "getUsers"; js "getUsersId"].
Proof. repeat split; vm_compute; discriminate. Qed.

(** C1, amended: for this document the pipeline computes the common prefix
    ["/api/users"] and generates exactly two functions: one named [get]
    taking no parameter and calling the [get] accessor with the plain
    literal path [''], and one named [getId] taking the single formal
    parameter [id] and calling the [get] accessor with the interpolated
    path template [/${id}]. *)
Theorem usersDocument_end_to_end :
  main_baseUrl usersDocument = js "/api/users"
  /\ main_routesLines usersDocument
     = [ importLine;
         js "export async function get(): Promise<any> {";
         js "  return apiClient.get('');";
         js "}" ++ LF;
         js "export async function getId(id): Promise<any> {";
         js "  return apiClient.get(`/${id}`);";
         js "}" ++ LF ]
  /\ main_routesContent usersDocument
     = join LF
         [ importLine;
           js "export async function get(): Promise<any> {";
           js "  return apiClient.get('');";
           js "}" ++ LF;
           js "export async function getId(id): Promise<any> {";
           js "  return apiClient.get(`/${id}`);";
           js "}" ++ LF ].
Proof. repeat split; vm_compute; reflexivity. Qed.

(* ===================================================================== *)
(** * More on the common base path *)
(* ===================================================================== *)

Lemma literalPrefix_length (q s : jsstring) :
  Spec.literalPrefix q s -> (length q <= length s)%nat.
Proof. intros [r ->]. rewrite length_app. lia. Qed.

Lemma literalPrefix_antisym (a b : jsstring) :
  Spec.literalPrefix a b -> Spec.literalPrefix b a -> a = b.
Proof.
  intros [r Hr] Hba. apply literalPrefix_length in Hba.
  rewrite Hr, length_app in Hba.
  destruct r; [now rewrite app_nil_r in Hr | simpl in Hba; lia].
Qed.

Lemma literalPrefix_nil_inv (q : jsstring) : Spec.literalPrefix q [] -> q = [].
Proof. intros [r H]. destruct q; [reflexivity | discriminate]. Qed.

(** A prefix of [p] is [p] itself or a prefix of [p] without its last unit. *)
Lemma literalPrefix_shrink (q p : jsstring) :
  Spec.literalPrefix q p ->
  q = p \/ Spec.literalPrefix q (firstn (length p - 1) p).
Proof.
  intros [r ->]. induction r as [|y r' _] using rev_ind.
  - left. now rewrite app_nil_r.
  - right. exists r'.
    rewrite app_assoc, length_app. simpl length.
    replace (length (q ++ r') + 1 - 1)%nat with (length (q ++ r') + 0)%nat
      by lia.
    rewrite firstn_app_2. simpl. now rewrite app_nil_r.
Qed.

(** The inner loop keeps every common prefix of the string and of the
    candidate: it is a prefix of the candidate left by the loop, and the
    early return only happens when there is no non-empty one. *)
Lemma whileShrink_complete (s p q : jsstring) :
  Spec.literalPrefix q s -> Spec.literalPrefix q p ->
  match whileShrink s p with
  | Continue r => Spec.literalPrefix q r
  | Return _ => q = []
  end.
Proof.
  funelim (whileShrink s p); intros Hs Hp.
  - exact Hp.
  - match goal with E : substring _ _ _ = [] |- _ =>
      pose proof E as Hsub end.
    rewrite substring_0 in Hsub.
    replace (Z.to_nat (Z.of_nat (length prefix) - 1))
      with (length prefix - 1)%nat in Hsub by lia.
    destruct (literalPrefix_shrink q prefix Hp) as [->|Hq].
    + exfalso. apply startsWith_literalPrefix, indexOf_zero in Hs.
      match goal with E : (indexOf _ _ =? 0) = false |- _ =>
        apply Z.eqb_neq in E; contradiction end.
    + rewrite Hsub in Hq. apply literalPrefix_nil_inv, Hq.
  - match goal with E : substring _ _ _ = _ :: _ |- _ =>
      pose proof E as Hsub end.
    rewrite substring_0 in Hsub.
    replace (Z.to_nat (Z.of_nat (length prefix) - 1))
      with (length prefix - 1)%nat in Hsub by lia.
    match goal with IH : forall q0, Spec.literalPrefix q0 _ -> _ |- _ =>
      apply IH; [exact Hs|] end.
    destruct (literalPrefix_shrink q prefix Hp) as [->|Hq].
    + exfalso. apply startsWith_literalPrefix, indexOf_zero in Hs.
      match goal with E : (indexOf _ _ =? 0) = false |- _ =>
        apply Z.eqb_neq in E; contradiction end.
    + now rewrite Hsub in Hq.
Qed.

Lemma forLoop_complete (rest : list jsstring) :
  forall p q,
    Spec.literalPrefix q p -> Forall (Spec.literalPrefix q) rest ->
    Spec.literalPrefix q (forLoop rest p).
Proof.
  induction rest as [|s rest IH]; intros p q Hp Hrest; simpl; [exact Hp|].
  inversion Hrest as [|? ? Hs Hrest']; subst.
  pose proof (whileShrink_complete s p q Hs Hp) as Hc.
  pose proof (whileShrink_sound s p) as Hw.
  destruct (whileShrink s p) as [r|v].
  - apply IH; assumption.
  - subst. apply literalPrefix_nil.
Qed.

(** Every common prefix of a non-empty list is a prefix of the result. *)
Lemma findCommonPrefix_greatest (first : jsstring) (rest : list jsstring)
    (q : jsstring) :
  Forall (Spec.literalPrefix q) (first :: rest) ->
  Spec.literalPrefix q (findCommonPrefix (first :: rest)).
Proof.
  intros H. inversion H; subst. apply forLoop_complete; assumption.
Qed.

Lemma eqb_refl (s : jsstring) : JS.eqb s s = true.
Proof. apply eqb_eq. reflexivity. Qed.

Lemma endsWith_app (pre suf : jsstring) : endsWith (pre ++ suf) suf = true.
Proof.
  unfold endsWith. rewrite length_app.
  replace (length pre + length suf - length suf)%nat with (length pre + 0)%nat
    by lia.
  rewrite skipn_app, Nat.add_0_r, skipn_all.
  replace (length pre - length pre)%nat with 0%nat by lia.
  cbn [skipn app]. rewrite eqb_refl.
  apply andb_true_iff. split; [apply Nat.leb_le; lia | reflexivity].
Qed.

Lemma endsWith_exists (s suf : jsstring) :
  endsWith s suf = true <-> exists pre, s = pre ++ suf.
Proof.
  split.
  - intros H. exists (firstn (length s - length suf) s).
    unfold endsWith in H. apply andb_true_iff in H. destruct H as [_ H].
    apply eqb_eq in H.
    transitivity (firstn (length s - length suf) s
                  ++ skipn (length s - length suf) s);
      [symmetry; apply firstn_skipn | f_equal; exact H].
  - intros [pre ->]. apply endsWith_app.
Qed.

Lemma strip_after_slash (pre : jsstring) :
  (if endsWith (pre ++ js "/") (js "/") then slice (pre ++ js "/") 0 (-1)
   else pre ++ js "/") = pre.
Proof.
  rewrite endsWith_app, slice_0_m1, length_app.
  change (length (js "/")) with 1%nat.
  replace (length pre + 1 - 1)%nat with (length pre + 0)%nat by lia.
  rewrite firstn_app_2. cbn [firstn]. apply app_nil_r.
Qed.

Lemma endsWith_two_slashes (pre : jsstring) :
  endsWith pre (js "/") = endsWith (pre ++ js "/") (js "//").
Proof.
  apply eq_true_iff_eq. rewrite !endsWith_exists. split.
  - intros [q ->]. exists q. now rewrite <- app_assoc.
  - intros [q H]. exists q.
    change (js "//") with (js "/" ++ js "/") in H.
    rewrite app_assoc in H. apply app_inj_tail in H. tauto.
Qed.

Lemma extractCommonBasePath_of_prefix (paths : list jsstring) :
  extractCommonBasePath paths
  = if endsWith (findCommonPrefix paths) (js "/")
    then slice (findCommonPrefix paths) 0 (-1)
    else findCommonPrefix paths.
Proof. destruct paths; reflexivity. Qed.

(** C2, amended: for every non-empty list of paths, whose common prefix
    [findCommonPrefix] computes (the longest string that starts every
    path), the extractor applied to the singleton of its own result returns
    that result exactly when the result does not end with the separator,
    that is when the common prefix does not end with two separators;
    otherwise re-application strips one more separator. *)
Theorem extractCommonBasePath_idempotent_iff
    (first : jsstring) (rest : list jsstring) :
  let paths := first :: rest in
  let commonPrefix := findCommonPrefix paths in
  (Forall (Spec.literalPrefix commonPrefix) paths
   /\ forall q, Forall (Spec.literalPrefix q) paths ->
                Spec.literalPrefix q commonPrefix)
  /\ (extractCommonBasePath [extractCommonBasePath paths]
      = extractCommonBasePath paths
      <-> endsWith (extractCommonBasePath paths) (js "/") = false)
  /\ (endsWith (extractCommonBasePath paths) (js "/") = false
      <-> endsWith commonPrefix (js "//") = false)
  /\ (endsWith commonPrefix (js "//") = true ->
      commonPrefix = extractCommonBasePath paths ++ js "/"
      /\ extractCommonBasePath paths
         = extractCommonBasePath [extractCommonBasePath paths] ++ js "/").
Proof.
  intros paths commonPrefix. split; [|split; [|split]].
  - split; [apply findCommonPrefix_literalPrefix|].
    intros q Hq. apply findCommonPrefix_greatest, Hq.
  - rewrite extractCommonBasePath_singleton.
    destruct (endsWith (extractCommonBasePath paths) (js "/")) eqn:E.
    + split; [|discriminate]. intros H. exfalso.
      apply endsWith_length in E. apply (f_equal (@length codeunit)) in H.
      rewrite slice_0_m1, length_firstn in H.
      change (length (js "/")) with 1%nat in E. lia.
    + tauto.
  - rewrite extractCommonBasePath_of_prefix. fold commonPrefix.
    destruct (endsWith commonPrefix (js "/")) eqn:E.
    + apply endsWith_exists in E. destruct E as [pre E]. rewrite E.
      rewrite <- endsWith_two_slashes.
      pose proof (strip_after_slash pre) as Hs.
      rewrite endsWith_app in Hs. rewrite Hs. tauto.
    + rewrite E. split; [|tauto]. intros _.
      destruct (endsWith commonPrefix (js "//")) eqn:E2; [|reflexivity].
      apply endsWith_exists in E2. destruct E2 as [q E2].
      change (js "//") with (js "/" ++ js "/") in E2.
      rewrite app_assoc in E2. rewrite E2, endsWith_app in E. discriminate.
  - intros H2. apply endsWith_exists in H2. destruct H2 as [q H2].
    change (js "//") with (js "/" ++ js "/") in H2.
    rewrite extractCommonBasePath_singleton.
    rewrite extractCommonBasePath_of_prefix. fold commonPrefix.
    rewrite H2, app_assoc. rewrite (strip_after_slash (q ++ js "/")).
    rewrite (strip_after_slash q). split; reflexivity.
Qed.

(** C2, amended, at the paths ["/api//users"] and ["/api//orders"], whose
    common prefix ["/api//"] ends with two separators. *)
Lemma extractCommonBasePath_idempotent_iff_witness :
  endsWith (findCommonPrefix [js "/api//users"; js "/api//orders"])
    (js "//") = true
  /\ extractCommonBasePath [js "/api//users"; js "/api//orders"]
     = extractCommonBasePath
         [extractCommonBasePath [js "/api//users"; js "/api//orders"]]
       ++ js "/".
Proof.
  assert (H : endsWith (findCommonPrefix [js "/api//users"; js "/api//orders"])
                (js "//") = true) by (vm_compute; reflexivity).
  split; [exact H|].
  destruct (extractCommonBasePath_idempotent_iff (js "/api//users")
              [js "/api//orders"]) as [_ [_ [_ Hstrip]]].
  apply (Hstrip H).
Defined.

Lemma findCommonPrefix_incl (l l' : list jsstring) :
  l <> [] -> incl l l' ->
  Spec.literalPrefix (findCommonPrefix l') (findCommonPrefix l).
Proof.
  intros Hne Hincl. destruct l as [|first rest]; [congruence|].
  apply findCommonPrefix_greatest. apply Forall_forall. intros x Hx.
  pose proof (findCommonPrefix_literalPrefix l') as H.
  rewrite Forall_forall in H. apply H, Hincl, Hx.
Qed.

Lemma extractCommonBasePath_strip (paths : list jsstring) :
  extractCommonBasePath paths = stripTrailingSlash (findCommonPrefix paths).
Proof. destruct paths; reflexivity. Qed.

Lemma endsWith_split (s suf : jsstring) :
  endsWith s suf = true -> s = firstn (length s - length suf) s ++ suf.
Proof.
  unfold endsWith. rewrite andb_true_iff, eqb_eq. intros [_ H].
  transitivity (firstn (length s - length suf) s
                ++ skipn (length s - length suf) s);
    [symmetry; apply firstn_skipn | f_equal; exact H].
Qed.

Lemma stripTrailingSlash_prefix (s : jsstring) :
  Spec.literalPrefix (firstn (length s - 1) s) (stripTrailingSlash s)
  /\ Spec.literalPrefix (stripTrailingSlash s) s.
Proof.
  unfold stripTrailingSlash. destruct (endsWith s (js "/")).
  - rewrite slice_0_m1. split;
      [apply literalPrefix_refl | apply literalPrefix_firstn].
  - split; [apply literalPrefix_firstn | apply literalPrefix_refl].
Qed.

Lemma stripTrailingSlash_monotone (a b : jsstring) :
  Spec.literalPrefix a b ->
  Spec.literalPrefix (stripTrailingSlash a) (stripTrailingSlash b).
Proof.
  intros H. destruct (literalPrefix_shrink a b H) as [->|Hs].
  - apply literalPrefix_refl.
  - eapply literalPrefix_trans; [apply stripTrailingSlash_prefix|].
    eapply literalPrefix_trans; [exact Hs|apply stripTrailingSlash_prefix].
Qed.



(** X2: the common prefix and the base path do not depend on the order of
    the paths: two lists that are permutations of each other give the same
    results. *)
Theorem commonPrefix_permutation (l l' : list jsstring) :
  Permutation l l' ->
  findCommonPrefix l = findCommonPrefix l'
  /\ extractCommonBasePath l = extractCommonBasePath l'.
Proof.
  intros HP.
  assert (H : findCommonPrefix l = findCommonPrefix l').
  { destruct l as [|x l0].
    - apply Permutation_nil in HP. now subst.
    - assert (l' <> []) by
        (intros ->; apply Permutation_sym, Permutation_nil in HP;
         discriminate).
      apply literalPrefix_antisym; apply findCommonPrefix_incl;
        try assumption; try discriminate;
        intros y Hy;
        [ apply (Permutation_in y (Permutation_sym HP) Hy)
        | apply (Permutation_in y HP Hy) ]. }
  split; [exact H|]. rewrite !extractCommonBasePath_strip. now rewrite H.
Qed.

(** X2 at two paths and their swap. *)
Lemma commonPrefix_permutation_witness :
  Permutation [js "/api/users"; js "/api/orders"]
              [js "/api/orders"; js "/api/users"]
  /\ extractCommonBasePath [js "/api/users"; js "/api/orders"]
     = extractCommonBasePath [js "/api/orders"; js "/api/users"].
Proof.
  assert (H : Permutation [js "/api/users"; js "/api/orders"]
                          [js "/api/orders"; js "/api/users"])
    by apply perm_swap.
  split; [exact H|]. apply (commonPrefix_permutation _ _ H).
Defined.

(** X3: on a non-empty list [findCommonPrefix] returns the empty string
    exactly when no unit starts all the strings (in particular when one of
    them is empty); this covers the early return of the inner loop. *)
Theorem findCommonPrefix_empty_iff (first : jsstring) (rest : list jsstring) :
  findCommonPrefix (first :: rest) = []
  <-> forall c, ~ allStartWith c (first :: rest).
Proof.
  split.
  - intros H c Hc.
    assert (Hq : Forall (Spec.literalPrefix [c]) (first :: rest)).
    { unfold allStartWith in Hc. rewrite Forall_forall in *.
      intros x Hx. destruct (Hc x Hx) as [t ->]. exists t. reflexivity. }
    apply findCommonPrefix_greatest in Hq. rewrite H in Hq.
    apply literalPrefix_nil_inv in Hq. discriminate.
  - intros H. destruct (findCommonPrefix (first :: rest)) as [|c r] eqn:E;
      [reflexivity|].
    exfalso. apply (H c). unfold allStartWith.
    pose proof (findCommonPrefix_literalPrefix (first :: rest)) as Hs.
    rewrite E in Hs. rewrite Forall_forall in *.
    intros x Hx. destruct (Hs x Hx) as [t ->]. exists (r ++ t). reflexivity.
Qed.

(** X4: [extractCommonBasePath] removes at most one unit from the common
    prefix, and only a slash: the common prefix is the base path followed by
    a slash when the common prefix ends with a slash, and the base path
    itself otherwise. *)
Theorem extractCommonBasePath_strips_one (paths : list jsstring) :
  findCommonPrefix paths
  = extractCommonBasePath paths
    ++ (if endsWith (findCommonPrefix paths) (js "/") then js "/" else [])
  /\ (length (findCommonPrefix paths) - 1
      <= length (extractCommonBasePath paths)
      <= length (findCommonPrefix paths))%nat.
Proof.
  rewrite extractCommonBasePath_strip. unfold stripTrailingSlash.
  destruct (endsWith (findCommonPrefix paths) (js "/")) eqn:E.
  - rewrite slice_0_m1. split.
    + apply endsWith_split in E. exact E.
    + rewrite length_firstn. lia.
  - rewrite app_nil_r. split; [reflexivity | lia].
Qed.

(** X5: the base path is empty exactly when the common prefix is empty or
    is the single slash. *)
Theorem extractCommonBasePath_empty_iff (paths : list jsstring) :
  extractCommonBasePath paths = []
  <-> findCommonPrefix paths = [] \/ findCommonPrefix paths = js "/".
Proof.
  rewrite extractCommonBasePath_strip. unfold stripTrailingSlash.
  destruct (endsWith (findCommonPrefix paths) (js "/")) eqn:E.
  - rewrite slice_0_m1. pose proof (endsWith_split _ _ E) as Hs.
    simpl length in Hs. split.
    + intros H. right. rewrite H in Hs. exact Hs.
    + intros [H|H]; rewrite H in *; [discriminate E | reflexivity].
  - split; [auto | intros [H|H]; [exact H|]].
    rewrite H in E. discriminate E.
Qed.

(** X6: adding paths can only shorten the result: when every path of a
    non-empty list occurs in a second list, the common prefix of the second
    list is a prefix of the common prefix of the first, and so are the base
    paths. *)
Theorem commonPrefix_shrinks_with_more_paths (l l' : list jsstring) :
  l <> [] -> incl l l' ->
  Spec.literalPrefix (findCommonPrefix l') (findCommonPrefix l)
  /\ Spec.literalPrefix (extractCommonBasePath l') (extractCommonBasePath l).
Proof.
  intros Hne Hincl. pose proof (findCommonPrefix_incl l l' Hne Hincl) as H.
  split; [exact H|]. rewrite !extractCommonBasePath_strip.
  apply stripTrailingSlash_monotone, H.
Qed.

(** X6 when ["/api/orders"] is added to the two paths under ["/api/users"]. *)
Lemma commonPrefix_shrinks_with_more_paths_witness :
  [js "/api/users"; js "/api/users/{id}"] <> []
  /\ incl [js "/api/users"; js "/api/users/{id}"]
          [js "/api/users"; js "/api/users/{id}"; js "/api/orders"]
  /\ Spec.literalPrefix
       (extractCommonBasePath
          [js "/api/users"; js "/api/users/{id}"; js "/api/orders"])
       (extractCommonBasePath [js "/api/users"; js "/api/users/{id}"]).
Proof.
  assert (Hne : [js "/api/users"; js "/api/users/{id}"] <> [])
    by discriminate.
  assert (Hi : incl [js "/api/users"; js "/api/users/{id}"]
                 [js "/api/users"; js "/api/users/{id}"; js "/api/orders"]).
  { intros x [<-|[<-|[]]]; simpl; auto. }
  split; [exact Hne|]. split; [exact Hi|].
  apply (commonPrefix_shrinks_with_more_paths _ _ Hne Hi).
Defined.

(* ===================================================================== *)
(** * More on identifier derivation *)
(* ===================================================================== *)

Lemma capitalizeCamelCase_identifierDeriver (str : jsstring) :
  capitalizeCamelCase str = Spec.identifierDeriver str.
Proof.
  unfold capitalizeCamelCase, Spec.identifierDeriver.
  rewrite join_nil_concat.
  rewrite (map_ext _ _ capitalizePart_upperFirst).
  rewrite concat_map_upperFirst_nonEmpty.
  unfold splitNonAlnum. rewrite splitFrom_fragmentsFrom.
  rewrite replaceBraces_removeDelimiters. reflexivity.
Qed.

Lemma inRange_spec (lo hi c : codeunit) :
  inRange lo hi c = true <-> (lo <= c <= hi)%N.
Proof. unfold inRange. rewrite andb_true_iff, !N.leb_le. tauto. Qed.

Lemma inRange_false (lo hi c : codeunit) :
  inRange lo hi c = false <-> ~ (lo <= c <= hi)%N.
Proof.
  rewrite <- inRange_spec. destruct (inRange lo hi c); split;
    congruence.
Qed.

Lemma isAlnum_spec (c : codeunit) :
  isAlnum c = true
  <-> ((48 <= c <= 57) \/ (65 <= c <= 90) \/ (97 <= c <= 122))%N.
Proof.
  unfold isAlnum. rewrite !orb_true_iff, !inRange_spec. tauto.
Qed.

Lemma toUpperCaseUnit_alnum (c : codeunit) :
  isAlnum c = true ->
  isAlnum (toUpperCaseUnit c) = true /\ isLower (toUpperCaseUnit c) = false.
Proof.
  intros H. apply isAlnum_spec in H. unfold toUpperCaseUnit, isLower.
  destruct (inRange 97%N 122%N c) eqn:E.
  - apply inRange_spec in E. split.
    + apply isAlnum_spec. lia.
    + apply inRange_false. lia.
  - split; [apply isAlnum_spec; exact H | exact E].
Qed.

Lemma toUpperCaseUnit_not_lower (c : codeunit) :
  isLower c = false -> toUpperCaseUnit c = c.
Proof. unfold isLower, toUpperCaseUnit. now intros ->. Qed.

(** The fragments are non-empty and alphanumeric. *)
Lemma fragmentsFrom_wf (s : jsstring) :
  forall cur, forallb isAlnum cur = true ->
    Forall (fun f => f <> [] /\ forallb isAlnum f = true)
           (Spec.fragmentsFrom cur s).
Proof.
  induction s as [|c t IH]; intros cur Hcur; cbn [Spec.fragmentsFrom].
  - destruct cur; constructor; [split; [discriminate | exact Hcur] | constructor].
  - destruct (isAlnum c) eqn:Hc.
    + apply IH. rewrite forallb_app, Hcur. simpl. now rewrite Hc.
    + destruct cur as [|x cur].
      * apply IH. reflexivity.
      * constructor; [split; [discriminate | exact Hcur] | apply IH; reflexivity].
Qed.

Lemma upperFirst_shape (frs : list jsstring) :
  Forall (fun f => f <> [] /\ forallb isAlnum f = true) frs ->
  forallb isAlnum (concat (map Spec.upperFirst frs)) = true
  /\ existsb isLower (firstn 1 (concat (map Spec.upperFirst frs))) = false.
Proof.
  induction 1 as [|f frs [Hne Hf] _ [IHa _]]; [split; reflexivity|].
  destruct f as [|c f]; [congruence|]. cbn [map concat Spec.upperFirst app].
  simpl in Hf. apply andb_true_iff in Hf. destruct Hf as [Hc Hf].
  destruct (toUpperCaseUnit_alnum c Hc) as [Ha Hl]. split.
  - cbn [forallb]. rewrite Ha, forallb_app, Hf, IHa. reflexivity.
  - cbn [firstn existsb]. now rewrite Hl.
Qed.

Lemma identifierDeriver_shape (str : jsstring) :
  forallb isAlnum (Spec.identifierDeriver str) = true
  /\ existsb isLower (firstn 1 (Spec.identifierDeriver str)) = false.
Proof.
  unfold Spec.identifierDeriver, Spec.fragments.
  apply upperFirst_shape, fragmentsFrom_wf. reflexivity.
Qed.

Lemma isAlnum_not_special (c : codeunit) :
  isAlnum c = true ->
  N.eqb c (cu "/") = false /\ N.eqb c (cu "{") = false
  /\ N.eqb c (cu "}") = false.
Proof.
  intros H. apply isAlnum_spec in H.
  change (cu "/") with 47%N. change (cu "{") with 123%N.
  change (cu "}") with 125%N. rewrite !N.eqb_neq. lia.
Qed.

Lemma removeDelimiters_alnum (r : jsstring) :
  forallb isAlnum r = true -> Spec.removeDelimitersFrom None r = r.
Proof.
  induction r as [|c r IH]; [reflexivity|]. simpl forallb.
  intros H. apply andb_true_iff in H. destruct H as [Hc Hr].
  cbn [Spec.removeDelimitersFrom].
  destruct (isAlnum_not_special c Hc) as [_ [-> _]]. now rewrite IH.
Qed.

Lemma fragmentsFrom_alnum (r : jsstring) :
  forall cur, forallb isAlnum r = true ->
    Spec.fragmentsFrom cur r
    = match cur ++ r with [] => [] | _ :: _ => [cur ++ r] end.
Proof.
  induction r as [|c r IH]; intros cur H; cbn [Spec.fragmentsFrom].
  - rewrite app_nil_r. reflexivity.
  - simpl in H. apply andb_true_iff in H. destruct H as [Hc Hr].
    rewrite Hc, IH by assumption. now rewrite <- app_assoc.
Qed.

(** An alphanumeric string that does not start with a lowercase letter is
    its own identifier. *)
Lemma identifierDeriver_fixed (r : jsstring) :
  forallb isAlnum r = true -> existsb isLower (firstn 1 r) = false ->
  Spec.identifierDeriver r = r.
Proof.
  intros Ha Hl. unfold Spec.identifierDeriver, Spec.fragments,
    Spec.removeDelimiters.
  destruct r as [|c r]; [reflexivity|].
  assert (Hc : isAlnum c = true)
    by (simpl in Ha; apply andb_true_iff in Ha; tauto).
  unfold Spec.stripLeadingSeparator.
  destruct (isAlnum_not_special c Hc) as [-> _].
  rewrite removeDelimiters_alnum, fragmentsFrom_alnum by assumption.
  cbn [app map concat Spec.upperFirst]. rewrite app_nil_r.
  f_equal. apply toUpperCaseUnit_not_lower.
  cbn [firstn existsb] in Hl. now rewrite orb_false_r in Hl.
Qed.

Lemma removeDelimitersFrom_length (t : jsstring) :
  (length (Spec.removeDelimitersFrom None t) <= length t)%nat
  /\ forall nm,
       (length (Spec.removeDelimitersFrom (Some nm) t)
        <= 1 + length nm + length t)%nat.
Proof.
  induction t as [|c t [IHn IHs]]; split; cbn [Spec.removeDelimitersFrom].
  - cbn [length]. lia.
  - intros nm. cbn [length]. lia.
  - destruct (N.eqb c (cu "{")).
    + exact (IHs []).
    + cbn [length]. lia.
  - intros nm. destruct (N.eqb c (cu "}")).
    + destruct nm as [|x nm].
      * cbn [length]. lia.
      * rewrite length_app. cbn [length]. lia.
    + eapply Nat.le_trans; [apply (IHs (nm ++ [c]))|].
      rewrite length_app. cbn [length]. lia.
Qed.

Lemma fragmentsFrom_length (s : jsstring) :
  forall cur,
    (length (concat (Spec.fragmentsFrom cur s)) <= length cur + length s)%nat.
Proof.
  induction s as [|c t IH]; intros cur; cbn [Spec.fragmentsFrom].
  - destruct cur; cbn [concat length]; [lia|]. rewrite app_nil_r.
    cbn [length]. lia.
  - destruct (isAlnum c).
    + eapply Nat.le_trans; [apply (IH (cur ++ [c]))|].
      rewrite length_app. cbn [length]. lia.
    + pose proof (IH []) as H. cbn [length] in H.
      destruct cur as [|x cur]; cbn [concat length]; [lia|].
      rewrite length_app. cbn [length]. lia.
Qed.

Lemma upperFirst_length (frs : list jsstring) :
  length (concat (map Spec.upperFirst frs)) = length (concat frs).
Proof.
  induction frs as [|f frs IH]; [reflexivity|].
  cbn [map concat]. rewrite !length_app, IH. destruct f; reflexivity.
Qed.

Lemma fragments_skip_separator (c : codeunit) (s : jsstring) :
  isAlnum c = false -> Spec.fragments (c :: s) = Spec.fragments s.
Proof.
  intros H. unfold Spec.fragments. cbn [Spec.fragmentsFrom]. now rewrite H.
Qed.

(** X7: the identifier fragment only holds ASCII letters and digits, and
    its first unit, if any, is not a lowercase letter. *)
Theorem capitalizeCamelCase_shape (str : jsstring) :
  forallb isAlnum (capitalizeCamelCase str) = true
  /\ existsb isLower (firstn 1 (capitalizeCamelCase str)) = false.
Proof.
  rewrite capitalizeCamelCase_identifierDeriver.
  apply identifierDeriver_shape.
Qed.

(** X8: [capitalizeCamelCase] is idempotent: applied to one of its results
    it returns that result unchanged. *)
Theorem capitalizeCamelCase_idempotent (str : jsstring) :
  capitalizeCamelCase (capitalizeCamelCase str) = capitalizeCamelCase str.
Proof.
  rewrite !capitalizeCamelCase_identifierDeriver.
  destruct (identifierDeriver_shape str) as [Ha Hl].
  apply identifierDeriver_fixed; assumption.
Qed.

(** X9: the identifier fragment is never longer than the string it is
    derived from: units are only removed or replaced one for one. *)
Theorem capitalizeCamelCase_length (str : jsstring) :
  (length (capitalizeCamelCase str) <= length str)%nat.
Proof.
  rewrite capitalizeCamelCase_identifierDeriver.
  unfold Spec.identifierDeriver, Spec.fragments, Spec.removeDelimiters.
  rewrite upperFirst_length.
  pose proof (fragmentsFrom_length
                (Spec.removeDelimitersFrom None
                   (Spec.stripLeadingSeparator str)) []) as H1.
  pose proof (proj1 (removeDelimitersFrom_length
                       (Spec.stripLeadingSeparator str))) as H2.
  assert (H3 : (length (Spec.stripLeadingSeparator str) <= length str)%nat).
  { unfold Spec.stripLeadingSeparator. destruct str as [|c t]; [lia|].
    destruct (N.eqb c (cu "/")); cbn [length]; lia. }
  cbn [length] in H1. lia.
Qed.

(** X10: a leading slash never contributes to the identifier: a string
    and the same string after a slash have the same identifier, and the
    first replacement of [capitalizeCamelCase] can be left out without
    changing any result. *)
Theorem capitalizeCamelCase_leading_slash (str : jsstring) :
  capitalizeCamelCase (cu "/" :: str) = capitalizeCamelCase str
  /\ capitalizeCamelCase str
     = join [] (map capitalizePart (splitNonAlnum (replaceBraces str))).
Proof.
  assert (H : capitalizeCamelCase (cu "/" :: str) = capitalizeCamelCase str).
  { rewrite !capitalizeCamelCase_identifierDeriver.
    unfold Spec.identifierDeriver.
    change (Spec.stripLeadingSeparator (cu "/" :: str)) with str.
    destruct str as [|c t]; [reflexivity|].
    unfold Spec.stripLeadingSeparator.
    destruct (N.eqb c (cu "/")) eqn:Hc; [|reflexivity].
    apply N.eqb_eq in Hc. subst c. unfold Spec.removeDelimiters.
    cbn [Spec.removeDelimitersFrom].
    change (N.eqb (cu "/") (cu "{")) with false. cbv iota.
    rewrite fragments_skip_separator by reflexivity. reflexivity. }
  split; [exact H|]. rewrite <- H. reflexivity.
Qed.

Lemma toLowerCaseUnit_letter (c : codeunit) :
  isLetter c = true ->
  isLower (toLowerCaseUnit c) = true /\ isAlnum (toLowerCaseUnit c) = true.
Proof.
  intros H. unfold isLetter in H.
  rewrite orb_true_iff, !inRange_spec in H.
  unfold toLowerCaseUnit, isLower.
  destruct (inRange 65%N 90%N c) eqn:E.
  - apply inRange_spec in E. split;
      [apply inRange_spec | apply isAlnum_spec]; lia.
  - apply inRange_false in E. split;
      [apply inRange_spec | apply isAlnum_spec]; lia.
Qed.

(** X11: when the method is a non-empty string of ASCII letters, the
    function name only holds ASCII letters and digits and starts with a
    lowercase letter, whatever the relative path. *)
Theorem functionName_identifier (method relPath : jsstring) :
  method <> [] -> forallb isLetter method = true ->
  forallb isAlnum (functionName method relPath) = true
  /\ existsb isLower (firstn 1 (functionName method relPath)) = true.
Proof.
  intros Hne Hm. unfold functionName. split.
  - rewrite forallb_app, capitalizeCamelCase_identifierDeriver.
    destruct (identifierDeriver_shape relPath) as [-> _].
    rewrite andb_true_r. unfold toLowerCase.
    clear Hne. induction method as [|c m IH]; [reflexivity|].
    simpl in Hm. apply andb_true_iff in Hm. destruct Hm as [Hc Hm].
    cbn [map forallb]. rewrite (proj2 (toLowerCaseUnit_letter c Hc)).
    now rewrite IH.
  - destruct method as [|c m]; [congruence|].
    simpl in Hm. apply andb_true_iff in Hm. destruct Hm as [Hc _].
    cbn [toLowerCase map app firstn existsb].
    now rewrite (proj1 (toLowerCaseUnit_letter c Hc)).
Qed.

(** X11 at the method [GET] and the path ["/users/{id}"]. *)
Lemma functionName_identifier_witness :
  js "GET" <> []
  /\ forallb isLetter (js "GET") = true
  /\ forallb isAlnum (functionName (js "GET") (js "/users/{id}")) = true
  /\ existsb isLower (firstn 1 (functionName (js "GET") (js "/users/{id}")))
     = true.
Proof.
  assert (Hne : js "GET" <> []) by discriminate.
  assert (Hm : forallb isLetter (js "GET") = true) by reflexivity.
  split; [exact Hne|]. split; [exact Hm|].
  apply (functionName_identifier (js "GET") (js "/users/{id}") Hne Hm).
Defined.

(* ===================================================================== *)
(** * More on the generated lines *)
(* ===================================================================== *)

Lemma operationLines_length (relPath method : jsstring) (operation : Operation) :
  length (operationLines relPath method operation) = 3%nat.
Proof. reflexivity. Qed.

Lemma flat_map_blocks_length {A : Type} (f : A -> list jsstring) (l : list A) :
  (forall x, length (f x) = 3%nat) ->
  length (flat_map f l) = (3 * length l)%nat.
Proof.
  intros Hf. induction l as [|x l IH]; [reflexivity|].
  cbn [flat_map]. rewrite length_app, Hf, IH. cbn [length]. lia.
Qed.

Lemma flat_map_blocks_nth {A : Type} (f : A -> list jsstring) (l : list A) :
  (forall x, length (f x) = 3%nat) ->
  forall k e i,
    nth_error l k = Some e -> (i < 3)%nat ->
    nth_error (flat_map f l) (3 * k + i) = nth_error (f e) i.
Proof.
  intros Hf. induction l as [|x l IH]; intros k e i Hk Hi.
  - destruct k; discriminate.
  - cbn [flat_map]. destruct k as [|k].
    + injection Hk as ->. rewrite nth_error_app1 by (rewrite Hf; lia).
      f_equal.
    + cbn [nth_error] in Hk. rewrite nth_error_app2 by (rewrite Hf; lia).
      rewrite Hf. replace (3 * S k + i - 3)%nat with (3 * k + i)%nat by lia.
      apply IH; assumption.
Qed.

Lemma enumeratedOperations_perm (spec : OpenAPISpec) :
  Permutation (enumeratedOperations spec) (Spec.operationsInOrder spec).
Proof.
  unfold enumeratedOperations, Spec.operationsInOrder.
  eapply Permutation_trans;
    [apply Permutation_flat_map, Object_entries_perm|].
  induction (paths spec) as [|e entries IH]; [apply Permutation_refl|].
  cbn [flat_map]. apply Permutation_app; [|exact IH].
  apply Permutation_map, Object_entries_perm.
Qed.

(** X12: the array of lines holds the import line and three lines per
    operation of the document, no operation being dropped or merged: its
    length is one plus three times the number of operations, which is the
    sum of the numbers of methods of the paths. *)
Theorem generateRoutesLines_count (spec : OpenAPISpec) (baseUrl : jsstring) :
  length (generateRoutesLines spec baseUrl)
  = (1 + 3 * length (Spec.operationsInOrder spec))%nat
  /\ length (Spec.operationsInOrder spec)
     = list_sum (map (fun e : jsstring * PathMethods => length (snd e))
                     (paths spec)).
Proof.
  split.
  - rewrite generateRoutesLines_by_operation. cbn [length].
    rewrite flat_map_blocks_length
      by (intros x; apply operationLines_length).
    rewrite (Permutation_length (enumeratedOperations_perm spec)). lia.
  - unfold Spec.operationsInOrder.
    induction (paths spec) as [|e l IH]; [reflexivity|].
    cbn [flat_map map list_sum]. rewrite length_app, length_map, IH.
    reflexivity.
Qed.

(** X13: the lines of the operation of rank [k] (from 0) in the order in
    which the two loops enumerate the paths and the methods are at the
    positions [3k+1], [3k+2] and [3k+3] of the array: its function
    definition line, its return line and the closing line. That order is
    the document's declaration order when no key is an array index, and
    always holds the same operations. *)
Theorem generateRoutesLines_layout (spec : OpenAPISpec) (baseUrl : jsstring)
    (k : nat) (path method : jsstring) (operation : Operation) :
  nth_error (enumeratedOperations spec) k = Some (path, method, operation) ->
  let relPath := relativePath path baseUrl in
  let lines := generateRoutesLines spec baseUrl in
  nth_error lines (3 * k + 1)
  = Some (functionDefinition (functionName method relPath) (params operation)
            (hasRequestBody operation))
  /\ nth_error lines (3 * k + 2)
     = Some (returnLine method (apiPath relPath (params operation))
               (hasRequestBody operation))
  /\ nth_error lines (3 * k + 3) = Some (js "}" ++ LF)
  /\ Permutation (enumeratedOperations spec) (Spec.operationsInOrder spec)
  /\ (Spec.noIndexKeys spec = true ->
      enumeratedOperations spec = Spec.operationsInOrder spec).
Proof.
  intros Hk relPath lines. subst lines.
  rewrite generateRoutesLines_by_operation.
  assert (Hf : forall x, length (linesOfOperation baseUrl x) = 3%nat)
    by (intros x; apply operationLines_length).
  pose proof (flat_map_blocks_nth (linesOfOperation baseUrl)
                (enumeratedOperations spec) Hf k (path, method, operation))
    as H.
  split; [|split; [|split; [|split]]].
  - replace (3 * k + 1)%nat with (S (3 * k + 0)) by lia. cbn [nth_error].
    rewrite (H 0%nat Hk) by lia. reflexivity.
  - replace (3 * k + 2)%nat with (S (3 * k + 1)) by lia. cbn [nth_error].
    rewrite (H 1%nat Hk) by lia. reflexivity.
  - replace (3 * k + 3)%nat with (S (3 * k + 2)) by lia. cbn [nth_error].
    rewrite (H 2%nat Hk) by lia. reflexivity.
  - apply enumeratedOperations_perm.
  - apply enumeratedOperations_no_index.
Qed.

(** X13 at the document with the paths ["/b"] and ["7"]: the operation of
    ["7"] is enumerated first, so that its definition line is at
    position 1. *)
Lemma generateRoutesLines_layout_witness :
  nth_error (enumeratedOperations indexKeyDocument) 0
  = Some (js "7", js "get", noParameters)
  /\ nth_error (main_routesLines indexKeyDocument) (3 * 0 + 1)
     = Some (js "export async function get7(): Promise<any> {").
Proof.
  assert (Hk : nth_error (enumeratedOperations indexKeyDocument) 0
               = Some (js "7", js "get", noParameters)) by reflexivity.
  split; [exact Hk|].
  destruct (generateRoutesLines_layout indexKeyDocument
              (main_baseUrl indexKeyDocument) 0 _ _ _ Hk) as [H _].
  unfold main_routesLines. rewrite H. vm_compute. reflexivity.
Defined.

Lemma endsWith_slash_last (p : jsstring) :
  endsWith p (js "/") = true -> skipn (length p - 1) p = js "/".
Proof.
  unfold endsWith. rewrite andb_true_iff, eqb_eq. intros [_ H]. exact H.
Qed.

(** X14: for a document with a single path, the base path is that path
    without its trailing slash, the relative path is empty or the single
    slash, and every generated function is named by its lowercased method
    alone. *)
Theorem single_path_document (path : jsstring) (methods : PathMethods)
    (method : jsstring) :
  let baseUrl := main_baseUrl {| paths := [(path, methods)] |} in
  baseUrl = stripTrailingSlash path
  /\ (relativePath path baseUrl = [] \/ relativePath path baseUrl = js "/")
  /\ functionName method (relativePath path baseUrl) = toLowerCase method.
Proof.
  cbv zeta.
  assert (Hb : main_baseUrl {| paths := [(path, methods)] |}
               = stripTrailingSlash path).
  { unfold main_baseUrl, Object_keys. cbn [paths].
    rewrite Object_entries_singleton. reflexivity. }
  rewrite Hb. split; [reflexivity|].
  assert (Hr : relativePath path (stripTrailingSlash path) = []
               \/ relativePath path (stripTrailingSlash path) = js "/").
  { unfold stripTrailingSlash. destruct (endsWith path (js "/")) eqn:E.
    - right. rewrite slice_0_m1.
      rewrite relativePath_startsWith
        by (apply startsWith_literalPrefix, literalPrefix_firstn).
      rewrite length_firstn.
      replace (Nat.min (length path - 1) (length path))
        with (length path - 1)%nat by lia.
      apply endsWith_slash_last, E.
    - left. apply relativePath_self. }
  split; [exact Hr|].
  unfold functionName. destruct Hr as [-> | ->];
    (change (capitalizeCamelCase []) with (@nil codeunit)
     || change (capitalizeCamelCase (js "/")) with (@nil codeunit));
    apply app_nil_r.
Qed.

(** X15: removing the base path never merges two endpoints: two paths of a
    document with the same relative path are the same path. *)
Theorem relativePath_injective (spec : OpenAPISpec)
    (path1 path2 : jsstring) (methods1 methods2 : PathMethods) :
  In (path1, methods1) (paths spec) ->
  In (path2, methods2) (paths spec) ->
  relativePath path1 (main_baseUrl spec)
  = relativePath path2 (main_baseUrl spec) ->
  path1 = path2.
Proof.
  intros H1 H2 Heq.
  pose proof (main_baseUrl_startsWith spec _ _ H1) as S1.
  pose proof (main_baseUrl_startsWith spec _ _ H2) as S2.
  rewrite (relativePath_startsWith _ _ S1),
          (relativePath_startsWith _ _ S2) in Heq.
  apply startsWith_literalPrefix, literalPrefix_skipn in S1.
  apply startsWith_literalPrefix, literalPrefix_skipn in S2.
  rewrite S1, S2, Heq. reflexivity.
Qed.

(** X15 at the first path of the end-to-end document. *)
Lemma relativePath_injective_witness :
  In (js "/api/users", [(js "get", noParameters)]) (paths usersDocument)
  /\ js "/api/users" = js "/api/users".
Proof.
  assert (H : In (js "/api/users", [(js "get", noParameters)])
                 (paths usersDocument)) by (simpl; left; reflexivity).
  split; [exact H|].
  apply (relativePath_injective usersDocument _ _ _ _ H H eq_refl).
Defined.
